(** * Field dependency manager of elastic-package

    A shallow embedding of [internal/fields/dependency_manager.go]: the
    resolution of external field references against a cached schema and
    the injection of the imported definitions into a package's field
    tree.

    Go maps are finite maps ([gmap]), Go slices are lists (a nil slice
    and an empty slice are both the empty list), a value of type
    [interface{}] is a [value], and a function that can panic on an
    unchecked type assertion returns in [run].  A function that returns
    a value and an error returns a pair, as in the source.

    Injection returns the new nodes; that [Put] also changes the map of
    the input node in place is not represented, nothing below is about
    the input after the call.  The calls to the logger are left out.

    The sources at hand hold the dependency manager only.  What it uses
    from the rest of the package ([FieldDefinition],
    [FindElementDefinition], [common.MapStr] and its operations, the
    build manifest) is modelled from the specification and marked so. *)

From Stdlib Require Import String Ascii Lia.
From stdpp Require Import base option list strings gmap pretty.
From Equations Require Import Equations.

#[local] Set Warnings "-register-all".

(** ** Go values *)

(** What an [interface{}] holds in a decoded field tree.  [VMap] stands
    for both [map[string]interface{}] and [common.MapStr]; the two slice
    shapes that [skipField] tells apart are kept apart. *)
Inductive value : Type :=
| VNil
| VStr (s : string)
| VBool (b : bool)
| VInt (z : Z)
| VStrs (l : list string)
| VMap (m : gmap string value)
| VSlice (l : list value)
| VMapStrs (l : list (gmap string value)).

(** [common.MapStr] *)
Abbreviation MapStr := (gmap string value).

(** Go's [error]: [errors.New] / [fmt.Errorf] build a message,
    [errors.Wrap] puts a message in front of a cause. *)
Inductive error : Type :=
| ErrorNew (msg : string)
| ErrorWrap (cause : error) (msg : string).

Fixpoint Error (e : error) : string :=
  match e with
  | ErrorNew msg => msg
  | ErrorWrap cause msg => msg +:+ ": " +:+ Error cause
  end.

(** A call either panics or returns. *)
Inductive run (A : Type) : Type :=
| Panicked
| Returned (a : A).
Arguments Panicked {A}.
Arguments Returned {A} a.

(** The unchecked type assertion [v.(string)]. *)
Definition assertString (v : value) : run string :=
  match v with
  | VStr s => Returned s
  | _ => Panicked
  end.

(** The checked type assertion [s, _ := v.(string)]. *)
Definition asString (v : value) : string :=
  match v with
  | VStr s => s
  | _ => ""
  end.

(** [v != nil] *)
Definition notNil (v : value) : bool :=
  match v with
  | VNil => false
  | _ => true
  end.

(** [v == s] for a string constant [s]. *)
Definition isString (v : value) (s : string) : bool :=
  match v with
  | VStr s' => bool_decide (s' = s)
  | _ => false
  end.

Definition quote : string := String "034"%char EmptyString.

(** ** Sizes, for the recursion through nested [fields] *)

Definition msizeWith (f : value → nat) (m : MapStr) : nat :=
  S (map_fold (λ _ v acc, f v + acc) 0 m).

Fixpoint vsize (v : value) : nat :=
  match v with
  | VMap m => S (msizeWith vsize m)
  | VSlice l => S (foldr (λ v' acc, vsize v' + acc) 0 l)
  | VMapStrs l => S (foldr (λ m acc, msizeWith vsize m + acc) 0 l)
  | _ => 1
  end.

Definition msize (m : MapStr) : nat := msizeWith vsize m.

Definition sizes (l : list MapStr) : nat :=
  foldr (λ m acc, msize m + acc) 0 l.

(** ** Field definitions of a schema *)

(** Modelled from the spec: the [FieldDefinition] struct (declared in
    the package's model file, which is not part of the sources at hand),
    with the attributes section 3 of the specification lists and the
    dependency manager reads.  [Index] and [DocValues] are pointers to
    booleans, so absent, true and false are told apart. *)
Inductive FieldDefinition : Type := mkFieldDefinition {
  Name : string;
  Type_ : string;
  Description : string;
  Pattern : string;
  Index : option bool;
  DocValues : option bool;
  Normalize : list string;
  MultiFields : list FieldDefinition
}.

(** The zero value [FieldDefinition{}]. *)
Definition zeroFieldDefinition : FieldDefinition :=
  mkFieldDefinition "" "" "" "" None None [] [].

(** Modelled from the spec: the segments of a dotted path, as
    [strings.Split(path, ".")] gives them. *)
Fixpoint segments (s : string) : list string :=
  match s with
  | EmptyString => [EmptyString]
  | String c s' =>
      if Ascii.eqb c "."%char then EmptyString :: segments s'
      else match segments s' with
           | [] => [String c EmptyString]
           | seg :: rest => String c seg :: rest
           end
  end.

(** Modelled from the spec: the path search of the schema index
    (section 4.2).  The first segment is matched against the names of
    the definitions at this level, the first match wins; with segments
    left the search goes on in the nested definitions of the match. *)
Fixpoint findSegments (segs : list string) (defs : list FieldDefinition)
  : option FieldDefinition :=
  match segs with
  | [] => None
  | seg :: more =>
      match List.find (λ d, String.eqb (Name d) seg) defs with
      | None => None
      | Some d =>
          match more with
          | [] => Some d
          | _ :: _ => findSegments more (MultiFields d)
          end
      end
  end.

(** Modelled from the spec: [FindElementDefinition], the lookup of a
    dotted path in a schema ([None] is the nil pointer). *)
Definition FindElementDefinition (searchedKey : string)
    (fieldDefinitions : list FieldDefinition) : option FieldDefinition :=
  findSegments (segments searchedKey) fieldDefinitions.

(** ** Attribute maps *)

Module common.

Definition ErrKeyNotFound : error := ErrorNew "key not found".

(** Modelled from the spec: [MapStr.GetValue] for an attribute name
    (a key without dots): the value of the attribute, or nil and an
    error when the node does not carry it. *)
Definition GetValue (m : MapStr) (key : string) : value * option error :=
  match m !! key with
  | Some v => (v, None)
  | None => (VNil, Some ErrKeyNotFound)
  end.

(** Modelled from the spec: [MapStr.Put] for an attribute name. *)
Definition Put (m : MapStr) (key : string) (v : value) : MapStr :=
  <[key := v]> m.

(** Modelled from the spec: [MapStr.Delete] for an attribute name. *)
Definition Delete (m : MapStr) (key : string) : MapStr :=
  delete key m.

(** Modelled from the spec: the value an attribute gets when [val] is
    merged over [old]: two maps are merged key by key, anything else
    is replaced. *)
Fixpoint deepUpdateValue (old : option value) (val : value) {struct val}
  : value :=
  match val with
  | VMap d =>
      match old with
      | Some (VMap m) =>
          VMap (map_imap (λ k n, Some (deepUpdateValue (m !! k) n)) d ∪ m)
      | _ => val
      end
  | _ => val
  end.

(** Modelled from the spec: [m.DeepUpdate(d)], the deep merge of [d]
    on top of [m]; the values of [d] win on conflict. *)
Definition DeepUpdate (m d : MapStr) : MapStr :=
  map_imap (λ k n, Some (deepUpdateValue (m !! k) n)) d ∪ m.

(** Modelled from the spec: the conversion of one element of a
    generic sequence to an attribute map. *)
Definition toMapStr (v : value) : MapStr * option error :=
  match v with
  | VMap m => (m, None)
  | _ => (∅, Some (ErrorNew "expected map"))
  end.

Fixpoint toMapStrs (l : list value) : list MapStr * option error :=
  match l with
  | [] => ([], None)
  | v :: l' =>
      match toMapStr v with
      | (_, Some err) => ([], Some err)
      | (m, None) =>
          match toMapStrs l' with
          | (_, Some err) => ([], Some err)
          | (ms, None) => (m :: ms, None)
          end
      end
  end.

(** Modelled from the spec: [ToMapStrSlice], the conversion of a
    [fields] value to a sequence of nodes.  Both sequence shapes are
    accepted, anything else is an error. *)
Definition ToMapStrSlice (slice : value) : list MapStr * option error :=
  match slice with
  | VMapStrs l => (l, None)
  | VSlice l => toMapStrs l
  | _ => ([], Some (ErrorNew "can't convert to a slice of maps"))
  end.

End common.

Import common.

(** ** The dependency manager *)

Definition ecsSchemaName : string := "ecs".
Definition gitReferencePrefix : string := "git@".
Definition ecsSchemaFile : string := "ecs_nested.yml".

(** [DependencyManager]; a nil manager is [None]. *)
Record DependencyManager : Type := mkDependencyManager {
  schema : gmap string (list FieldDefinition)
}.

(** The three errors of [ImportField], with the texts of the source. *)
Definition externalFieldsNotAllowed (fieldPath : string) : error :=
  ErrorNew ("importing external field " +:+ quote +:+ fieldPath +:+ quote
    +:+ ": external fields not allowed because dependencies file "
    +:+ quote +:+ "_dev/build/build.yml" +:+ quote +:+ " is missing").

Definition schemaNotDefined (schemaName : string) : error :=
  ErrorNew ("schema " +:+ quote +:+ schemaName +:+ quote
    +:+ " is not defined as package depedency").

Definition fieldDefinitionNotFound (fieldPath : string) : error :=
  ErrorNew ("field definition not found in schema (name: " +:+ fieldPath
    +:+ ")").

(** [ImportField]: resolves one external field in the schemas at hand. *)
Definition ImportField (dm : option DependencyManager)
    (schemaName fieldPath : string) : FieldDefinition * option error :=
  match dm with
  | None => (zeroFieldDefinition, Some (externalFieldsNotAllowed fieldPath))
  | Some dm =>
      match schema dm !! schemaName with
      | None => (zeroFieldDefinition, Some (schemaNotDefined schemaName))
      | Some schema =>
          match FindElementDefinition fieldPath schema with
          | None => (zeroFieldDefinition, Some (fieldDefinitionNotFound fieldPath))
          | Some imported => (imported, None)
          end
      end
  end.

(** [buildFieldPath]; the name is asserted to be a string unchecked. *)
Definition buildFieldPath (root : string) (field : MapStr) : run string :=
  let path := root in
  let path := if bool_decide (root ≠ "") then path +:+ "." else path in
  let '(fieldName, _) := GetValue field "name" in
  match assertString fieldName with
  | Panicked => Panicked
  | Returned name => Returned (path +:+ name)
  end.

(** [transformImportedField] *)
Fixpoint transformImportedField (fd : FieldDefinition) : MapStr :=
  let m : MapStr := {[ "name" := VStr (Name fd); "type" := VStr (Type_ fd) ]} in
  let m := if bool_decide (Description fd ≠ "")
           then <["description" := VStr (Description fd)]> m else m in
  let m := if bool_decide (Pattern fd ≠ "")
           then <["pattern" := VStr (Pattern fd)]> m else m in
  let m := match Index fd with
           | Some b => <["index" := VBool b]> m
           | None => m
           end in
  let m := match DocValues fd with
           | Some b => <["doc_values" := VBool b]> m
           | None => m
           end in
  let m := if bool_decide (0 < length (Normalize fd))
           then <["normalize" := VStrs (Normalize fd)]> m else m in
  let m := if bool_decide (0 < length (MultiFields fd))
           then Put m "multi_fields"
                  (VMapStrs (List.map transformImportedField (MultiFields fd)))
           else m in
  m.

(** [skipField]: whether a node is left out of the built fields. *)
Definition skipField (def : MapStr) : bool :=
  let '(t, _) := GetValue def "type" in
  if isString t "group" then
    let '(fields, _) := GetValue def "fields" in
    match fields with
    | VNil => true
    | VSlice fields => bool_decide (length fields = 0)
    | VMapStrs fields => bool_decide (length fields = 0)
    | _ => false
    end
  else false.

(** The body of the external branch of [injectFieldsWithRoot] (lines
    159 to 171): the imported definition with the local attributes
    merged on top, the marker removed and the type settled. *)
Definition mergeImportedField (imported : FieldDefinition) (def : MapStr)
  : MapStr :=
  let transformed := transformImportedField imported in
  let transformed := DeepUpdate transformed def in
  let transformed := Delete transformed "external" in
  let ttype := asString (default VNil (transformed !! "type")) in
  if bool_decide (ttype ≠ "constant_keyword")
     || bool_decide (Type_ imported ≠ "keyword")
  then <["type" := VStr (Type_ imported)]> transformed
  else transformed.

(** [if skipField(def) { continue }; updated = append(updated, def)] *)
Definition appendUnlessSkipped (updated : list MapStr) (def : MapStr)
  : list MapStr :=
  if skipField def then updated else updated ++ [def].

(** ** The nested fields of a node are smaller than the node *)

Lemma msize_lookup (m : MapStr) (k : string) (v : value) :
  m !! k = Some v → vsize v < msize m.
Proof.
  intros Hk. unfold msize, msizeWith.
  rewrite (map_fold_delete_L _ _ k v m); [lia | | exact Hk].
  intros; lia.
Qed.

Lemma toMapStrs_size (l : list value) (ms : list MapStr) :
  toMapStrs l = (ms, None) →
  sizes ms ≤ foldr (λ v' acc, vsize v' + acc) 0 l.
Proof.
  revert ms. induction l as [|v l IH]; intros ms; simpl.
  - intros [= <-]. simpl. lia.
  - destruct v; simpl; try discriminate.
    destruct (toMapStrs l) as [ms' [err|]]; try discriminate.
    intros [= <-]. specialize (IH ms' eq_refl). simpl.
    fold (msize m). lia.
Qed.

Lemma ToMapStrSlice_size (v : value) (ms : list MapStr) :
  ToMapStrSlice v = (ms, None) → sizes ms < vsize v.
Proof.
  destruct v; try discriminate; intros H.
  - apply toMapStrs_size in H. change (vsize (VSlice l)) with
      (S (foldr (λ v' acc, vsize v' + acc) 0 l)). lia.
  - simpl in H. injection H as ->.
    change (vsize (VMapStrs ms)) with (S (sizes ms)). lia.
Qed.

Lemma fields_size (def : MapStr) (fields : value) (ms : list MapStr) :
  (GetValue def "fields").1 = fields →
  notNil fields = true →
  ToMapStrSlice fields = (ms, None) →
  sizes ms < msize def.
Proof.
  unfold GetValue. intros Hf Hn Hc.
  destruct (def !! "fields") as [v|] eqn:Hl; simpl in Hf; subst fields.
  - apply msize_lookup in Hl. apply ToMapStrSlice_size in Hc. lia.
  - discriminate.
Qed.

(** ** Injection *)

(** A value together with the equation that it is the value of [x]. *)
Definition inspect {A : Type} (x : A) : {y : A | x = y} := exist _ x eq_refl.

(** The loop of [injectFieldsWithRoot] over [defs], with the slice
    [updated] and the flag [changed] it builds.  Every error return of
    the source is [nil, false, err]. *)
Equations? injectFieldsWithRoot_loop (dm : option DependencyManager)
    (root : string) (defs : list MapStr) (updated : list MapStr)
    (changed : bool) : run (list MapStr * bool * option error)
    by wf (sizes defs) lt :=
  injectFieldsWithRoot_loop dm root [] updated changed :=
    Returned (updated, changed, None);
  injectFieldsWithRoot_loop dm root (def :: rest) updated changed
    with buildFieldPath root def := {
    | Panicked := Panicked;
    | Returned fieldPath with notNil (GetValue def "external").1 := {
      | true with assertString (GetValue def "external").1 := {
        | Panicked := Panicked;
        | Returned schemaName with ImportField dm schemaName fieldPath := {
          | (_, Some err) :=
              Returned ([], false, Some (ErrorWrap err "can't import field"));
          | (imported, None) :=
              injectFieldsWithRoot_loop dm root rest
                (appendUnlessSkipped updated (mergeImportedField imported def))
                true } };
      | false with inspect (GetValue def "fields").1 := {
        | exist _ fields Hf with inspect (notNil fields) := {
          | exist _ false _ :=
              injectFieldsWithRoot_loop dm root rest
                (appendUnlessSkipped updated def) changed;
          | exist _ true Hn with inspect (ToMapStrSlice fields) := {
            | exist _ (_, Some err) _ :=
                Returned ([], false, Some (ErrorWrap err "can't convert fields"));
            | exist _ (fieldsMs, None) Hc
                with injectFieldsWithRoot_loop dm fieldPath fieldsMs [] false := {
              | Panicked := Panicked;
              | Returned (_, _, Some err) := Returned ([], false, Some err);
              | Returned (updatedFields, fieldsChanged, None) :=
                  injectFieldsWithRoot_loop dm root rest
                    (appendUnlessSkipped updated
                       (Put def "fields" (VMapStrs updatedFields)))
                    (changed || fieldsChanged) } } } } } }.
Proof.
  all: try (simpl; unfold msize, msizeWith; lia).
  pose proof (fields_size def _ fieldsMs eq_refl Hn Hc) as Hlt.
  unfold msize, msizeWith in Hlt. lia.
Qed.

(** [injectFieldsWithRoot] *)
Definition injectFieldsWithRoot (dm : option DependencyManager)
    (root : string) (defs : list MapStr)
  : run (list MapStr * bool * option error) :=
  injectFieldsWithRoot_loop dm root defs [] false.

(** [InjectFields]: replaces external field references with the target
    definitions. *)
Definition InjectFields (dm : option DependencyManager) (defs : list MapStr)
  : run (list MapStr * bool * option error) :=
  injectFieldsWithRoot dm "" defs.

(** What one iteration makes of a node: the node that goes on to the
    pruning test, and whether it changed. *)
Definition injectField (dm : option DependencyManager) (root : string)
    (def : MapStr) : run (MapStr * bool * option error) :=
  match buildFieldPath root def with
  | Panicked => Panicked
  | Returned fieldPath =>
      let external := (GetValue def "external").1 in
      if notNil external then
        match assertString external with
        | Panicked => Panicked
        | Returned schemaName =>
            match ImportField dm schemaName fieldPath with
            | (_, Some err) =>
                Returned (def, false, Some (ErrorWrap err "can't import field"))
            | (imported, None) =>
                Returned (mergeImportedField imported def, true, None)
            end
        end
      else
        let fields := (GetValue def "fields").1 in
        if notNil fields then
          match ToMapStrSlice fields with
          | (_, Some err) =>
              Returned (def, false, Some (ErrorWrap err "can't convert fields"))
          | (fieldsMs, None) =>
              match injectFieldsWithRoot dm fieldPath fieldsMs with
              | Panicked => Panicked
              | Returned (_, _, Some err) => Returned (def, false, Some err)
              | Returned (updatedFields, fieldsChanged, None) =>
                  Returned (Put def "fields" (VMapStrs updatedFields),
                            fieldsChanged, None)
              end
          end
        else Returned (def, false, None)
  end.

(** ** Loading the schema: files, network and cache *)

Module buildmanifest.
(** Modelled from the spec: the ECS dependency of a build manifest,
    a reference such as [git@v8.0.0]. *)
Record ECSDependency : Type := mkECSDependency { Reference : string }.
(** Modelled from the spec: the dependencies of a build manifest. *)
Record Dependencies : Type := mkDependencies { ECS : ECSDependency }.
End buildmanifest.
Import buildmanifest.

(** What the loader does to its surroundings, in the order it does it. *)
Inductive Event : Type :=
| EvNewLocationManager
| EvReadFile (path : string)
| EvHttpGet (url : string)
| EvReadAll (url : string)
| EvMkdirAll (dir : string)
| EvWriteFile (path : string) (content : list Byte.byte).

(** [http.Response]: the status code, and what reading the body gives. *)
Record Response : Type := mkResponse {
  StatusCode : Z;
  Body : list Byte.byte * option error
}.

(** The surroundings of a run: the fields cache directory the location
    manager gives (or its error), the files (a file is readable with a
    content, or reading it fails with an error; a path that is not in
    the map does not exist), the remote host, whether a directory can be
    made and a file written, and the events so far. *)
Record World : Type := mkWorld {
  fieldsCacheDir : string * option error;
  files : gmap string (list Byte.byte + error);
  remote : string → Response * option error;
  mkdirError : string → option error;
  writeError : string → option error;
  trace : list Event
}.

(** A computation that reads and changes the surroundings. *)
Definition IO (A : Type) : Type := World → A * World.

Definition ret {A : Type} (a : A) : IO A := λ w, (a, w).

Definition bind {A B : Type} (m : IO A) (k : A → IO B) : IO B :=
  λ w, let '(a, w') := m w in k a w'.

Notation "x <- m ;; k" := (bind m (λ x, k))
  (at level 100, m at next level, right associativity).

Definition emit (ev : Event) (w : World) : World :=
  mkWorld (fieldsCacheDir w) (files w) (remote w) (mkdirError w)
    (writeError w) (trace w ++ [ev]).

Module os.
Definition ErrNotExist : error := ErrorNew "file does not exist".

(** [os.ReadFile] *)
Definition ReadFile (path : string) : IO (list Byte.byte * option error) :=
  λ w,
    let w := emit (EvReadFile path) w in
    match files w !! path with
    | None => (([], Some (ErrorWrap ErrNotExist ("open " +:+ path))), w)
    | Some (inr err) => (([], Some err), w)
    | Some (inl content) => ((content, None), w)
    end.

(** [os.MkdirAll] *)
Definition MkdirAll (dir : string) : IO (option error) :=
  λ w, (mkdirError w dir, emit (EvMkdirAll dir) w).

(** [os.WriteFile]: the file holds the content when the write succeeds. *)
Definition WriteFile (path : string) (content : list Byte.byte)
  : IO (option error) :=
  λ w,
    let w := emit (EvWriteFile path content) w in
    match writeError w path with
    | Some err => (Some err, w)
    | None =>
        (None,
         mkWorld (fieldsCacheDir w) (<[path := inl content]> (files w))
           (remote w) (mkdirError w) (writeError w) (trace w))
    end.
End os.

Module http.
Definition StatusOK : Z := 200.
Definition StatusNotFound : Z := 404.

(** [http.Get] *)
Definition Get (url : string) : IO (Response * option error) :=
  λ w, (remote w url, emit (EvHttpGet url) w).
End http.

Module io.
(** [io.ReadAll] of the body of the response to [url]. *)
Definition ReadAll (url : string) (resp : Response)
  : IO (list Byte.byte * option error) :=
  λ w, (Body resp, emit (EvReadAll url) w).
End io.

Module errors.
Fixpoint error_eqb (e1 e2 : error) : bool :=
  match e1, e2 with
  | ErrorNew m1, ErrorNew m2 => String.eqb m1 m2
  | ErrorWrap c1 m1, ErrorWrap c2 m2 => error_eqb c1 c2 && String.eqb m1 m2
  | _, _ => false
  end.

(** [errors.Is]: the target is the error or one of its causes. *)
Fixpoint Is (err target : error) : bool :=
  error_eqb err target ||
  match err with
  | ErrorNew _ => false
  | ErrorWrap cause _ => Is cause target
  end.
End errors.

Module locations.
(** The fields cache directory of [locations.NewLocationManager()]. *)
Definition NewLocationManager : IO (string * option error) :=
  λ w, (fieldsCacheDir w, emit EvNewLocationManager w).
End locations.

Module strings.
(** [strings.HasPrefix] *)
Fixpoint HasPrefix (s prefix : string) {struct prefix} : bool :=
  match prefix, s with
  | EmptyString, _ => true
  | String p prefix', String c s' => Ascii.eqb c p && HasPrefix s' prefix'
  | String _ _, EmptyString => false
  end.
End strings.

(** The slice [s[n:]]. *)
Fixpoint sliceFrom (n : nat) (s : string) : string :=
  match n, s with
  | O, _ => s
  | S n', String _ s' => sliceFrom n' s'
  | S _, EmptyString => EmptyString
  end.

(** [asGitReference] *)
Definition asGitReference (reference : string) : string * option error :=
  if negb (strings.HasPrefix reference gitReferencePrefix) then
    ("", Some (ErrorNew ("invalid Git reference (" +:+ quote +:+ "git@"
                           +:+ quote +:+ " prefix expected)")))
  else (sliceFrom (String.length gitReferencePrefix) reference, None).

(** [fmt.Sprintf(ecsSchemaURL, gitReference, ecsSchemaFile)] *)
Definition ecsSchemaURL (gitReference file : string) : string :=
  "https://raw.githubusercontent.com/elastic/ecs/" +:+ gitReference
    +:+ "/generated/ecs/" +:+ file.

Section SchemaLoader.

(** [filepath.Join], [filepath.Dir] and the YAML decoding of a schema
    are taken as they come. *)
Variable filepath_Join : list string → string.
Variable filepath_Dir : string → string.
Variable yaml_Unmarshal : list Byte.byte → list FieldDefinition * option error.

(** [readECSFieldsSchemaFile] *)
Definition readECSFieldsSchemaFile (dep : ECSDependency)
  : IO (list Byte.byte * option error) :=
  match asGitReference (Reference dep) with
  | (_, Some err) =>
      ret ([], Some (ErrorWrap err "can't process the value as Git reference"))
  | (gitReference, None) =>
      loc <- locations.NewLocationManager;;
      match loc with
      | (_, Some err) =>
          ret ([], Some (ErrorWrap err "error fetching profile path"))
      | (cacheDir, None) =>
          let cachedSchemaPath :=
            filepath_Join [cacheDir; ecsSchemaName; gitReference; ecsSchemaFile] in
          read <- os.ReadFile cachedSchemaPath;;
          match read with
          | (content, None) => ret (content, None)
          | (content, Some err) =>
              if errors.Is err os.ErrNotExist then
                let url := ecsSchemaURL gitReference ecsSchemaFile in
                got <- http.Get url;;
                match got with
                | (_, Some err) =>
                    ret ([], Some (ErrorWrap err
                      ("can't download the online schema (URL: " +:+ url +:+ ")")))
                | (resp, None) =>
                    if bool_decide (StatusCode resp = http.StatusNotFound) then
                      ret ([], Some (ErrorNew
                        ("unsatisfied ECS dependency, reference defined in build manifest doesn't exist (HTTP StatusNotFound, URL: "
                         +:+ url +:+ ")")))
                    else if bool_decide (StatusCode resp ≠ http.StatusOK) then
                      ret ([], Some (ErrorNew
                        ("unexpected HTTP status code: " +:+ pretty (StatusCode resp))))
                    else
                      body <- io.ReadAll url resp;;
                      match body with
                      | (_, Some err) =>
                          ret ([], Some (ErrorWrap err
                            ("can't read schema content (URL: " +:+ url +:+ ")")))
                      | (content, None) =>
                          let cachedSchemaDir := filepath_Dir cachedSchemaPath in
                          made <- os.MkdirAll cachedSchemaDir;;
                          match made with
                          | Some err =>
                              ret ([], Some (ErrorWrap err
                                ("can't create cache directories for schema (path: "
                                 +:+ cachedSchemaDir +:+ ")")))
                          | None =>
                              written <- os.WriteFile cachedSchemaPath content;;
                              match written with
                              | Some err =>
                                  ret ([], Some (ErrorWrap err
                                    ("can't write cached schema (path: "
                                     +:+ cachedSchemaPath +:+ ")")))
                              | None => ret (content, None)
                              end
                          end
                      end
                end
              else
                ret ([], Some (ErrorWrap err
                  ("can't read cached schema (path: " +:+ cachedSchemaPath +:+ ")")))
          end
      end
  end.

(** [parseECSFieldsSchema] *)
Definition parseECSFieldsSchema (content : list Byte.byte)
  : list FieldDefinition * option error :=
  match yaml_Unmarshal content with
  | (_, Some err) => ([], Some (ErrorWrap err "unmarshalling field body failed"))
  | (fields, None) => (fields, None)
  end.

(** [loadECSFieldsSchema] *)
Definition loadECSFieldsSchema (dep : ECSDependency)
  : IO (list FieldDefinition * option error) :=
  if bool_decide (Reference dep = "") then ret ([], None)
  else
    read <- readECSFieldsSchemaFile dep;;
    match read with
    | (_, Some err) =>
        ret ([], Some (ErrorWrap err "error reading ECS fields schema file"))
    | (content, None) => ret (parseECSFieldsSchema content)
    end.

(** [buildFieldsSchema]; a nil map is the empty map. *)
Definition buildFieldsSchema (deps : Dependencies)
  : IO (gmap string (list FieldDefinition) * option error) :=
  let schema : gmap string (list FieldDefinition) := ∅ in
  loaded <- loadECSFieldsSchema (ECS deps);;
  match loaded with
  | (_, Some err) => ret (∅, Some (ErrorWrap err "can't load fields"))
  | (ecsSchema, None) => ret (<[ecsSchemaName := ecsSchema]> schema, None)
  end.

(** [CreateFieldDependencyManager] *)
Definition CreateFieldDependencyManager (deps : Dependencies)
  : IO (option DependencyManager * option error) :=
  built <- buildFieldsSchema deps;;
  match built with
  | (_, Some err) => ret (None, Some (ErrorWrap err "can't build fields schema"))
  | (schema, None) => ret (Some (mkDependencyManager schema), None)
  end.

End SchemaLoader.

(** ** Notions the properties are stated with *)

(** A [fields] value that is an empty sequence of nodes, in either of
    the shapes a tree holds: the generic slice of a decoded document,
    and the slice of maps injection puts. *)
Inductive emptySequence : value → Prop :=
| empty_generic : emptySequence (VSlice [])
| empty_mapstrs : emptySequence (VMapStrs []).

(** The node has no [fields] attribute, or a nil one. *)
Definition fieldsAbsent (def : MapStr) : Prop :=
  def !! "fields" = None ∨ def !! "fields" = Some VNil.

(** The definition a dotted path, given by its segments, leads to in a
    schema: each segment names a definition, the next one is looked for
    among its nested definitions. *)
Inductive definedAt
  : list string → list FieldDefinition → FieldDefinition → Prop :=
| defined_here seg defs d :
    d ∈ defs → Name d = seg → definedAt [seg] defs d
| defined_below seg more defs d d' :
    d ∈ defs → Name d = seg → more ≠ [] →
    definedAt more (MultiFields d) d' →
    definedAt (seg :: more) defs d'.

(** Sibling definitions have different names, at every level. *)
Inductive uniqueNames : list FieldDefinition → Prop :=
| unique_names defs :
    NoDup (Name <$> defs) →
    (∀ d, d ∈ defs → uniqueNames (MultiFields d)) →
    uniqueNames defs.


(** The scenario of the specification: a schema [ecs] that defines
    [event.outcome] as a keyword, and a local tree whose [event] node is
    external and has an [outcome] child. *)
Definition outcomeKeyword : FieldDefinition :=
  mkFieldDefinition "outcome" "keyword" "" "" None None [] [].

Definition scenarioSchema : list FieldDefinition :=
  [mkFieldDefinition "event" "group" "" "" None None [] [outcomeKeyword]].

Definition scenarioManager : option DependencyManager :=
  Some (mkDependencyManager {[ "ecs" := scenarioSchema ]}).

Definition outcomeChild : MapStr := {[ "name" := VStr "outcome" ]}.

Definition eventNode : MapStr :=
  {[ "name" := VStr "event"; "external" := VStr "ecs";
     "type" := VStr "group"; "fields" := VSlice [VMap outcomeChild] ]}.

Definition scenarioTree : list MapStr := [eventNode].


(** Injection meets a failure in the tree below [root]: a node with an
    external marker whose import fails, a node whose nested fields do
    not convert, or a node with such a failure in its nested fields. *)
Inductive resolutionFails (dm : option DependencyManager)
  : string → list MapStr → Prop :=
| fails_import root defs def fieldPath schemaName zero err :
    def ∈ defs →
    buildFieldPath root def = Returned fieldPath →
    (GetValue def "external").1 = VStr schemaName →
    ImportField dm schemaName fieldPath = (zero, Some err) →
    resolutionFails dm root defs
| fails_convert root defs def ms err :
    def ∈ defs →
    notNil (GetValue def "external").1 = false →
    notNil (GetValue def "fields").1 = true →
    ToMapStrSlice (GetValue def "fields").1 = (ms, Some err) →
    resolutionFails dm root defs
| fails_nested root defs def fieldPath fieldsMs :
    def ∈ defs →
    buildFieldPath root def = Returned fieldPath →
    notNil (GetValue def "external").1 = false →
    notNil (GetValue def "fields").1 = true →
    ToMapStrSlice (GetValue def "fields").1 = (fieldsMs, None) →
    resolutionFails dm fieldPath fieldsMs →
    resolutionFails dm root defs.

(** A call that did not return a result without an error. *)
Definition notOk {A : Type} (r : run (A * bool * option error)) : Prop :=
  match r with
  | Returned (_, _, None) => False
  | _ => True
  end.

(** Every node, at every depth, carries a name that is a string, and
    an external attribute, when it carries one, that is a string. *)
Inductive wellNamed : MapStr → Prop :=
| well_named def :
    (∃ name, def !! "name" = Some (VStr name)) →
    (∀ v, def !! "external" = Some v → ∃ schemaName, v = VStr schemaName) →
    (∀ fieldsMs,
       ToMapStrSlice (GetValue def "fields").1 = (fieldsMs, None) →
       Forall wellNamed fieldsMs) →
    wellNamed def.

(** No node, at any depth, has an external marker. *)
Inductive noExternal : MapStr → Prop :=
| no_external def :
    def !! "external" = None →
    (∀ fieldsMs,
       ToMapStrSlice (GetValue def "fields").1 = (fieldsMs, None) →
       Forall noExternal fieldsMs) →
    noExternal def.

(** A node as injection leaves it: named, without marker, not pruned,
    and its nested fields, when it has some, a slice of maps of such
    nodes. *)
Inductive injected : MapStr → Prop :=
| injected_node def :
    (∃ name, def !! "name" = Some (VStr name)) →
    def !! "external" = None →
    skipField def = false →
    (fieldsAbsent def
     ∨ ∃ children, def !! "fields" = Some (VMapStrs children)
                   ∧ Forall injected children) →
    injected def.


(** A tree without markers that is pruned. *)
Definition emptyGroupTree : list MapStr :=
  [ {[ "name" := VStr "a"; "type" := VStr "group" ]} ].

(** The number of events of a kind in a trace. *)
Definition countEvents (kind : Event → bool) (evs : list Event) : nat :=
  length (List.filter kind evs).

(** A fetch from the remote host. *)
Definition isFetch (ev : Event) : bool :=
  match ev with
  | EvHttpGet _ => true
  | _ => false
  end.

(** A write to the cache. *)
Definition isCacheWrite (ev : Event) : bool :=
  match ev with
  | EvWriteFile _ _ => true
  | _ => false
  end.

(** A read of the cache. *)
Definition isCacheRead (ev : Event) : bool :=
  match ev with
  | EvReadFile _ => true
  | _ => false
  end.

(** The errors of a response that is not a success. *)
Definition unsatisfiedDependency (url : string) : error :=
  ErrorNew ("unsatisfied ECS dependency, reference defined in build manifest doesn't exist (HTTP StatusNotFound, URL: "
            +:+ url +:+ ")").

Definition unexpectedStatus (code : Z) : error :=
  ErrorNew ("unexpected HTTP status code: " +:+ pretty code).

(** The error of a reference without the prefix. *)
Definition invalidGitReference : error :=
  ErrorWrap
    (ErrorNew ("invalid Git reference (" +:+ quote +:+ "git@" +:+ quote
               +:+ " prefix expected)"))
    "can't process the value as Git reference".


(** The events a computation adds to the trace of [w]. *)
Definition newEvents (w w' : World) : list Event :=
  drop (length (trace w)) (trace w').

(** Simple stand-ins for [filepath.Join] and [filepath.Dir], for the
    examples: the elements joined by slashes, and the path up to its
    last slash. *)
Definition joinPath (elems : list string) : string := String.concat "/" elems.

Fixpoint upToLastSlash (s : string) : option string :=
  match s with
  | EmptyString => None
  | String c s' =>
      match upToLastSlash s' with
      | Some d => Some (String c d)
      | None => if Ascii.eqb c "/"%char then Some EmptyString else None
      end
  end.

Definition dirOf (path : string) : string := default "." (upToLastSlash path).

(** Surroundings with an empty cache in which the remote host answers
    with the given status and body. *)
Definition answering (code : Z) (body : list Byte.byte) : World :=
  mkWorld ("/cache/fields", None) ∅
    (λ _, (mkResponse code (body, None), None))
    (λ _, None) (λ _, None) [].

Definition v8 : ECSDependency := mkECSDependency "git@v8.0.0".


(** The fetch succeeded and the cache directory could be made: the
    conditions under which the loader writes to the cache. *)
Definition fetchedForCache (w : World) (url cachedSchemaDir : string) : Prop :=
  ∃ resp content,
    remote w url = (resp, None)
    ∧ StatusCode resp = http.StatusOK
    ∧ Body resp = (content, None)
    ∧ mkdirError w cachedSchemaDir = None.


(** The local override of the specification: an external [outcome]
    node that declares the type [constant_keyword]. *)
Definition constantOutcome : MapStr :=
  {[ "name" := VStr "outcome"; "external" := VStr "ecs";
     "type" := VStr "constant_keyword" ]}.

(** An external [outcome] node that declares the type [text]. *)
Definition textOutcome : MapStr :=
  {[ "name" := VStr "outcome"; "external" := VStr "ecs";
     "type" := VStr "text" ]}.

(** The [event] definition of the scenario schema. *)
Definition eventGroup : FieldDefinition :=
  mkFieldDefinition "event" "group" "" "" None None [] [outcomeKeyword].

(** A tree without markers, as a decoded document holds it, with a
    group that has a child and a group that has none; and the tree
    injection makes of it. *)
Definition plainTree : list MapStr :=
  [ {[ "name" := VStr "a"; "type" := VStr "group";
       "fields" := VSlice [VMap {[ "name" := VStr "b";
                                   "type" := VStr "keyword" ]}] ]};
    {[ "name" := VStr "g"; "type" := VStr "group" ]} ].

Definition plainTreeInjected : list MapStr :=
  [ {[ "name" := VStr "a"; "type" := VStr "group";
       "fields" := VMapStrs [ {[ "name" := VStr "b";
                                 "type" := VStr "keyword" ]} ] ]} ].

(** A node without a name, and a node whose external attribute is not
    a string. *)
Definition unnamedNode : MapStr := {[ "type" := VStr "keyword" ]}.

Definition oddExternalNode : MapStr :=
  {[ "name" := VStr "a"; "external" := VBool true ]}.

(** The schema decoder of the examples: every document is empty. *)
Definition noDefinitions (content : list Byte.byte)
  : list FieldDefinition * option error := ([], None).

(** The cached schema path and the URL of [v8] in the examples. *)
Definition v8Path : string :=
  joinPath ["/cache/fields"; ecsSchemaName; "v8.0.0"; ecsSchemaFile].

Definition v8URL : string := ecsSchemaURL "v8.0.0" ecsSchemaFile.

(** Surroundings in which the schema of [v8] is cached. *)
Definition cachedWorld (content : list Byte.byte) : World :=
  mkWorld ("/cache/fields", None) {[ v8Path := inl content ]}
    (λ _, (mkResponse 500 ([], None), None))
    (λ _, None) (λ _, None) [].


(** Injection reaches an external marker in the tree: on a node of the
    list, or in the nested fields of a node without marker. *)
Inductive marked : list MapStr → Prop :=
| marked_here defs def :
    def ∈ defs →
    notNil (GetValue def "external").1 = true →
    marked defs
| marked_below defs def fieldsMs :
    def ∈ defs →
    notNil (GetValue def "external").1 = false →
    notNil (GetValue def "fields").1 = true →
    ToMapStrSlice (GetValue def "fields").1 = (fieldsMs, None) →
    marked fieldsMs →
    marked defs.


(** The attribute names [transformImportedField] writes. *)
Definition importedAttributes : list string :=
  ["name"; "type"; "description"; "pattern"; "index"; "doc_values";
   "normalize"; "multi_fields"].


(** A group without fields. *)
Definition emptyGroup : MapStr :=
  {[ "name" := VStr "g"; "type" := VStr "group" ]}.

(** Surroundings in which the cached schema of [v8] cannot be read,
    and surroundings without a cache directory. *)
Definition permissionDenied : error := ErrorNew "permission denied".

Definition unreadableWorld : World :=
  mkWorld ("/cache/fields", None) {[ v8Path := inr permissionDenied ]}
    (λ _, (mkResponse 200 ([], None), None))
    (λ _, None) (λ _, None) [].

Definition homelessWorld : World :=
  mkWorld ("", Some (ErrorNew "reading home dir failed")) ∅
    (λ _, (mkResponse 200 ([], None), None))
    (λ _, None) (λ _, None) [].

(** Surroundings with an empty cache in which the fetch succeeds and
    the cached file cannot be written. *)
Definition readOnlyWorld : World :=
  mkWorld ("/cache/fields", None) ∅
    (λ _, (mkResponse 200 ([Byte.x61], None), None))
    (λ _, None) (λ _, Some (ErrorNew "read-only file system")) [].


(** An empty sequence in any of the container shapes a value has:
    the generic slice, the slice of maps, and the slice of strings
    ([[]string{}], the shape of [normalize]). *)
Definition emptyOfAnyShape (v : value) : Prop :=
  v = VSlice [] ∨ v = VMapStrs [] ∨ v = VStrs [].

(** A group whose [fields] is an empty slice of strings. *)
Definition emptyStringsGroup : MapStr :=
  {[ "type" := VStr "group"; "fields" := VStrs [] ]}.


(** The events of a loading that goes all the way, in their order. *)
Definition loadSequence (path url dir : string) (content : list Byte.byte)
  : list Event :=
  [EvNewLocationManager; EvReadFile path; EvHttpGet url; EvReadAll url;
   EvMkdirAll dir; EvWriteFile path content].



(** * Properties *)

(** ** The definitions on examples *)

Example segments_dotted : segments "event.outcome" = ["event"; "outcome"].
Proof. reflexivity. Qed.

Example segments_plain : segments "event" = ["event"].
Proof. reflexivity. Qed.

Example FindElementDefinition_nested :
  FindElementDefinition "event.outcome" scenarioSchema = Some outcomeKeyword.
Proof. reflexivity. Qed.

Example FindElementDefinition_missing :
  FindElementDefinition "event.result" scenarioSchema = None.
Proof. reflexivity. Qed.

Example buildFieldPath_nested :
  buildFieldPath "event" outcomeChild = Returned "event.outcome".
Proof. vm_compute. reflexivity. Qed.

Example asGitReference_v8 : asGitReference "git@v8.0.0" = ("v8.0.0", None).
Proof. reflexivity. Qed.

Example Error_wrapped :
  Error (ErrorWrap (fieldDefinitionNotFound "event.result")
           "can't import field")
  = "can't import field: field definition not found in schema (name: event.result)".
Proof. reflexivity. Qed.

(** The override of the specification: the local [constant_keyword]
    is kept over the imported [keyword]. *)
Example mergeImportedField_constantOutcome :
  mergeImportedField outcomeKeyword constantOutcome
  = {[ "name" := VStr "outcome"; "type" := VStr "constant_keyword" ]}.
Proof. vm_compute. reflexivity. Qed.

(** The pruning examples of the specification: a group with an empty
    [fields] is left out, a group with a child is kept with it. *)
Example InjectFields_prunes_empty_group :
  InjectFields None
    [ {[ "name" := VStr "g"; "type" := VStr "group"; "fields" := VSlice [] ]} ]
  = Returned ([], false, None).
Proof. vm_compute. reflexivity. Qed.

Example InjectFields_keeps_group_with_child :
  InjectFields None
    [ {[ "name" := VStr "g"; "type" := VStr "group";
         "fields" := VSlice [VMap {[ "name" := VStr "x";
                                     "type" := VStr "keyword" ]}] ]} ]
  = Returned
      ([ {[ "name" := VStr "g"; "type" := VStr "group";
            "fields" := VMapStrs [ {[ "name" := VStr "x";
                                      "type" := VStr "keyword" ]} ] ]} ],
       false, None).
Proof. vm_compute. reflexivity. Qed.

(** A marker below a plain group is resolved, with the dotted path. *)
Example InjectFields_nested_marker :
  InjectFields scenarioManager
    [ {[ "name" := VStr "event"; "type" := VStr "group";
         "fields" := VSlice [VMap {[ "name" := VStr "outcome";
                                     "external" := VStr "ecs" ]}] ]} ]
  = Returned
      ([ {[ "name" := VStr "event"; "type" := VStr "group";
            "fields" := VMapStrs [ {[ "name" := VStr "outcome";
                                      "type" := VStr "keyword" ]} ] ]} ],
       true, None).
Proof. vm_compute. reflexivity. Qed.

(** ** The injection loop *)

(** The loop, one iteration unfolded, as the source reads. *)
Lemma injectFieldsWithRoot_loop_cons dm root def rest updated changed :
  injectFieldsWithRoot_loop dm root (def :: rest) updated changed =
  match buildFieldPath root def with
  | Panicked => Panicked
  | Returned fieldPath =>
      let external := (GetValue def "external").1 in
      if notNil external then
        match assertString external with
        | Panicked => Panicked
        | Returned schemaName =>
            match ImportField dm schemaName fieldPath with
            | (_, Some err) =>
                Returned ([], false, Some (ErrorWrap err "can't import field"))
            | (imported, None) =>
                injectFieldsWithRoot_loop dm root rest
                  (appendUnlessSkipped updated (mergeImportedField imported def))
                  true
            end
        end
      else
        let fields := (GetValue def "fields").1 in
        if notNil fields then
          match ToMapStrSlice fields with
          | (_, Some err) =>
              Returned ([], false, Some (ErrorWrap err "can't convert fields"))
          | (fieldsMs, None) =>
              match injectFieldsWithRoot dm fieldPath fieldsMs with
              | Panicked => Panicked
              | Returned (_, _, Some err) => Returned ([], false, Some err)
              | Returned (updatedFields, fieldsChanged, None) =>
                  injectFieldsWithRoot_loop dm root rest
                    (appendUnlessSkipped updated
                       (Put def "fields" (VMapStrs updatedFields)))
                    (changed || fieldsChanged)
              end
          end
        else
          injectFieldsWithRoot_loop dm root rest
            (appendUnlessSkipped updated def) changed
  end.
Proof.
  simp injectFieldsWithRoot_loop.
  destruct (buildFieldPath root def) as [|fieldPath]; [reflexivity|].
  cbn beta iota zeta. simp injectFieldsWithRoot_loop.
  destruct (notNil (GetValue def "external").1) eqn:Hext;
    simp injectFieldsWithRoot_loop.
  - destruct (assertString (GetValue def "external").1) as [|schemaName];
      simp injectFieldsWithRoot_loop; [reflexivity|].
    destruct (ImportField dm schemaName fieldPath) as [imported [err|]];
      simp injectFieldsWithRoot_loop; reflexivity.
  - unfold inspect at 1. simp injectFieldsWithRoot_loop.
    remember (inspect (notNil (GetValue def "fields").1)) as i eqn:Hi.
    clear Hi. destruct i as [b Hb].
    etransitivity; [|rewrite Hb; reflexivity].
    destruct b; simp injectFieldsWithRoot_loop; [|reflexivity].
    remember (inspect (ToMapStrSlice (GetValue def "fields").1)) as i eqn:Hi.
    clear Hi. destruct i as [[fieldsMs [err|]] Hc];
      (etransitivity; [|rewrite Hc; reflexivity]);
      simp injectFieldsWithRoot_loop; [reflexivity|].
    unfold injectFieldsWithRoot.
    destruct (injectFieldsWithRoot_loop dm fieldPath fieldsMs [] false)
      as [|[[updatedFields fieldsChanged] [err|]]];
      simp injectFieldsWithRoot_loop; reflexivity.
Qed.

Lemma appendUnlessSkipped_app (updated : list MapStr) (def : MapStr) :
  appendUnlessSkipped updated def = updated ++ appendUnlessSkipped [] def.
Proof.
  unfold appendUnlessSkipped. destruct (skipField def); simpl.
  - by rewrite app_nil_r.
  - reflexivity.
Qed.

(** What the loop returns from any [updated] and [changed] is what it
    returns from the empty slice and [false], put behind them; an error
    return carries neither. *)
Lemma injectFieldsWithRoot_loop_acc dm root defs updated changed :
  injectFieldsWithRoot_loop dm root defs updated changed =
  match injectFieldsWithRoot dm root defs with
  | Panicked => Panicked
  | Returned (_, _, Some err) => Returned ([], false, Some err)
  | Returned (u, c, None) => Returned (updated ++ u, changed || c, None)
  end.
Proof.
  unfold injectFieldsWithRoot.
  revert updated changed.
  induction defs as [|def rest IH]; intros updated changed.
  - simp injectFieldsWithRoot_loop. by rewrite app_nil_r, orb_false_r.
  - rewrite !injectFieldsWithRoot_loop_cons.
    destruct (buildFieldPath root def) as [|fieldPath]; [reflexivity|].
    cbn zeta.
    destruct (notNil (GetValue def "external").1).
    + destruct (assertString (GetValue def "external").1) as [|schemaName];
        [reflexivity|].
      destruct (ImportField dm schemaName fieldPath) as [imported [err|]];
        [reflexivity|].
      rewrite (IH (appendUnlessSkipped [] _)), (IH (appendUnlessSkipped updated _)).
      rewrite (appendUnlessSkipped_app updated).
      destruct (injectFieldsWithRoot_loop dm root rest [] false)
        as [|[[u c] [err|]]]; try reflexivity.
      by rewrite app_assoc, orb_true_r.
    + destruct (notNil (GetValue def "fields").1).
      * destruct (ToMapStrSlice (GetValue def "fields").1)
          as [fieldsMs [err|]]; [reflexivity|].
        destruct (injectFieldsWithRoot dm fieldPath fieldsMs)
          as [|[[updatedFields fieldsChanged] [err|]]]; try reflexivity.
        rewrite (IH (appendUnlessSkipped [] _)),
          (IH (appendUnlessSkipped updated _)).
        rewrite (appendUnlessSkipped_app updated).
        destruct (injectFieldsWithRoot_loop dm root rest [] false)
          as [|[[u c] [err|]]]; try reflexivity.
        by rewrite app_assoc, orb_assoc.
      * rewrite (IH (appendUnlessSkipped [] _)),
          (IH (appendUnlessSkipped updated _)).
        rewrite (appendUnlessSkipped_app updated).
        destruct (injectFieldsWithRoot_loop dm root rest [] false)
          as [|[[u c] [err|]]]; try reflexivity.
        by rewrite app_assoc.
Qed.

Lemma injectFieldsWithRoot_nil dm root :
  injectFieldsWithRoot dm root [] = Returned ([], false, None).
Proof. unfold injectFieldsWithRoot. by simp injectFieldsWithRoot_loop. Qed.

Lemma injectFieldsWithRoot_cons dm root def rest :
  injectFieldsWithRoot dm root (def :: rest) =
  match injectField dm root def with
  | Panicked => Panicked
  | Returned (_, _, Some err) => Returned ([], false, Some err)
  | Returned (def', changed, None) =>
      match injectFieldsWithRoot dm root rest with
      | Panicked => Panicked
      | Returned (_, _, Some err) => Returned ([], false, Some err)
      | Returned (u, c, None) =>
          Returned (appendUnlessSkipped [] def' ++ u, changed || c, None)
      end
  end.
Proof.
  unfold injectFieldsWithRoot at 1, injectField.
  rewrite injectFieldsWithRoot_loop_cons.
  destruct (buildFieldPath root def) as [|fieldPath]; [reflexivity|].
  cbn zeta.
  destruct (notNil (GetValue def "external").1).
  - destruct (assertString (GetValue def "external").1) as [|schemaName];
      [reflexivity|].
    destruct (ImportField dm schemaName fieldPath) as [imported [err|]];
      [reflexivity|].
    by rewrite injectFieldsWithRoot_loop_acc.
  - destruct (notNil (GetValue def "fields").1).
    + destruct (ToMapStrSlice (GetValue def "fields").1)
        as [fieldsMs [err|]]; [reflexivity|].
      destruct (injectFieldsWithRoot dm fieldPath fieldsMs)
        as [|[[updatedFields fieldsChanged] [err|]]]; try reflexivity.
      by rewrite injectFieldsWithRoot_loop_acc.
    + by rewrite injectFieldsWithRoot_loop_acc.
Qed.

(** Induction over a field tree the way injection walks it: through
    the list, and into the nested fields of a node. *)
Lemma field_tree_ind (P : list MapStr → Prop) :
  P [] →
  (∀ def rest,
     (∀ fieldsMs,
        notNil (GetValue def "fields").1 = true →
        ToMapStrSlice (GetValue def "fields").1 = (fieldsMs, None) →
        P fieldsMs) →
     P rest → P (def :: rest)) →
  ∀ defs, P defs.
Proof.
  intros Hnil Hcons defs.
  remember (sizes defs) as n eqn:Hn.
  revert defs Hn. induction n as [n IH] using lt_wf_ind. intros defs ->.
  destruct defs as [|def rest]; [exact Hnil|].
  apply Hcons.
  - intros fieldsMs Hnn Hc.
    apply (IH (sizes fieldsMs)); [|reflexivity].
    pose proof (fields_size def _ fieldsMs eq_refl Hnn Hc).
    change (sizes (def :: rest)) with (msize def + sizes rest). lia.
  - apply (IH (sizes rest)); [|reflexivity].
    change (sizes (def :: rest)) with (msize def + sizes rest).
    unfold msize, msizeWith. lia.
Qed.


(** ** Pruning *)

(** C3 fails as stated: the rule depends on the container shape of the
    empty sequence.  A group whose fields is an empty slice of strings
    is not skipped, though its type is "group" and its fields is an
    empty sequence; the same group with an empty generic slice is. *)
Lemma skipField_shape_dependent :
  emptyStringsGroup !! "type" = Some (VStr "group")
  ∧ (∃ v, emptyStringsGroup !! "fields" = Some v ∧ emptyOfAnyShape v)
  ∧ skipField emptyStringsGroup = false
  ∧ skipField {[ "type" := VStr "group"; "fields" := VSlice [] ]} = true
  ∧ ¬ (skipField emptyStringsGroup = true ↔
       emptyStringsGroup !! "type" = Some (VStr "group")
       ∧ (fieldsAbsent emptyStringsGroup
          ∨ ∃ v, emptyStringsGroup !! "fields" = Some v ∧ emptyOfAnyShape v)).
Proof.
  assert (Htype : emptyStringsGroup !! "type" = Some (VStr "group")).
  { vm_compute. reflexivity. }
  assert (Hfields : ∃ v, emptyStringsGroup !! "fields" = Some v
                         ∧ emptyOfAnyShape v).
  { exists (VStrs []). split; [vm_compute; reflexivity|].
    right. right. reflexivity. }
  assert (Hkept : skipField emptyStringsGroup = false).
  { vm_compute. reflexivity. }
  split_and!; [exact Htype|exact Hfields|exact Hkept|vm_compute; reflexivity|].
  intros [_ H]. rewrite Hkept in H.
  assert (Habs : false = true) by (apply H; split; [exact Htype|right; exact Hfields]).
  discriminate Habs.
Qed.

(** C3, as amended: [skipField] holds exactly for a node whose type is
    the string "group" and whose fields attribute is absent (missing or
    nil) or an empty sequence in one of the two shapes of the type
    switch, the generic slice and the slice of maps. *)
Theorem skipField_iff (def : MapStr) :
  skipField def = true ↔
  def !! "type" = Some (VStr "group") ∧
  (fieldsAbsent def ∨ ∃ v, def !! "fields" = Some v ∧ emptySequence v).
Proof.
  unfold skipField, fieldsAbsent, GetValue. split.
  - destruct (def !! "type") as [t|]; simpl; [|discriminate].
    destruct t; simpl; try discriminate.
    case_bool_decide; [subst s|discriminate].
    intros H. split; [reflexivity|].
    destruct (def !! "fields") as [fields|]; [|by left; left].
    destruct fields; simpl in H; try discriminate.
    + by left; right.
    + apply bool_decide_eq_true in H. destruct l; [|discriminate].
      right. eexists. split; [reflexivity|constructor].
    + apply bool_decide_eq_true in H. destruct l; [|discriminate].
      right. eexists. split; [reflexivity|constructor].
  - intros [-> [[-> | ->] | (v & -> & Hv)]]; simpl; try reflexivity.
    destruct Hv; reflexivity.
Qed.

(** A slice of strings is not a sequence of nodes: a decoded tree holds
    none under [fields], and [ToMapStrSlice] does not accept it.  The
    type switch of [skipField] has no case for it. *)
Example skipField_other_slice :
  skipField {[ "type" := VStr "group"; "fields" := VStrs [] ]} = false
  ∧ (ToMapStrSlice (VStrs [])).2 ≠ None.
Proof. split; [vm_compute; reflexivity|discriminate]. Qed.

(** ** Importing a field *)

Lemma find_unique (defs : list FieldDefinition) (d : FieldDefinition) :
  NoDup (Name <$> defs) → d ∈ defs →
  List.find (λ d', String.eqb (Name d') (Name d)) defs = Some d.
Proof.
  induction defs as [|d0 defs IH]; intros Hnd Hin.
  - by apply elem_of_nil in Hin.
  - simpl in *. apply NoDup_cons in Hnd as [Hnotin Hnd].
    apply elem_of_cons in Hin as [->|Hin].
    + by rewrite String.eqb_refl.
    + destruct (String.eqb (Name d0) (Name d)) eqn:E.
      * apply String.eqb_eq in E. exfalso. apply Hnotin. rewrite E.
        by apply list_elem_of_fmap_2.
      * by apply IH.
Qed.

Lemma find_elem (defs : list FieldDefinition) (seg : string) d :
  List.find (λ d', String.eqb (Name d') seg) defs = Some d →
  d ∈ defs ∧ Name d = seg.
Proof.
  induction defs as [|d0 defs IH]; simpl; [discriminate|].
  destruct (String.eqb (Name d0) seg) eqn:E.
  - intros [= <-]. split; [left|by apply String.eqb_eq].
  - intros H. destruct (IH H). split; [by right|done].
Qed.

(** The search finds nothing but what the path leads to ... *)
Lemma findSegments_definedAt segs defs d :
  findSegments segs defs = Some d → definedAt segs defs d.
Proof.
  revert defs. induction segs as [|seg more IH]; intros defs; simpl;
    [discriminate|].
  destruct (List.find _ defs) as [d0|] eqn:Hf; [|discriminate].
  apply find_elem in Hf as [Hin Hname].
  destruct more as [|seg' more].
  - intros [= <-]. by constructor.
  - intros H. apply IH in H. by eapply defined_below.
Qed.

(** ... and, with unique sibling names, everything the path leads to. *)
Lemma definedAt_findSegments segs defs d :
  uniqueNames defs → definedAt segs defs d → findSegments segs defs = Some d.
Proof.
  intros Hu Hd. induction Hd as [seg defs d Hin Hn|seg more defs d d' Hin Hn Hne Hd IH].
  - destruct Hu as [defs Hnd _]. subst seg. simpl.
    by rewrite find_unique.
  - destruct Hu as [defs Hnd Hsub]. subst seg. simpl.
    rewrite find_unique by done.
    destruct more; [done|]. apply IH. by apply Hsub.
Qed.

Lemma app_String_ne (a b : ascii) (s t u v : string) :
  a ≠ b → String a s +:+ u ≠ String b t +:+ v.
Proof. intros Hab [= Heq _]. by apply Hab. Qed.

(** C4: [ImportField] fails in three ways, told apart by their errors:
    with a nil manager, with the error that external fields are not
    allowed, which names the path; otherwise, with a schema name that is
    not a key of the schema map, with the error that the schema is not
    a dependency; otherwise, when the lookup of the path gives nothing,
    with the error that the definition is not found, which names the
    path.  It fails in no other way, and for a path that leads to a
    definition of the schema it returns that definition. *)
Theorem ImportField_cases (dm : option DependencyManager)
    (schemaName fieldPath : string) :
  (dm = None →
   ImportField dm schemaName fieldPath
   = (zeroFieldDefinition, Some (externalFieldsNotAllowed fieldPath))) ∧
  (∀ m, dm = Some m → schema m !! schemaName = None →
   ImportField dm schemaName fieldPath
   = (zeroFieldDefinition, Some (schemaNotDefined schemaName))) ∧
  (∀ m defs, dm = Some m → schema m !! schemaName = Some defs →
   FindElementDefinition fieldPath defs = None →
   ImportField dm schemaName fieldPath
   = (zeroFieldDefinition, Some (fieldDefinitionNotFound fieldPath))) ∧
  (∀ m defs d, dm = Some m → schema m !! schemaName = Some defs →
   FindElementDefinition fieldPath defs = Some d →
   ImportField dm schemaName fieldPath = (d, None)) ∧
  (∀ m defs d, dm = Some m → schema m !! schemaName = Some defs →
   uniqueNames defs → definedAt (segments fieldPath) defs d →
   ImportField dm schemaName fieldPath = (d, None)) ∧
  (∀ err, (ImportField dm schemaName fieldPath).2 = Some err →
   err = externalFieldsNotAllowed fieldPath
   ∨ err = schemaNotDefined schemaName
   ∨ err = fieldDefinitionNotFound fieldPath) ∧
  (∀ p s p', externalFieldsNotAllowed p ≠ schemaNotDefined s
             ∧ externalFieldsNotAllowed p ≠ fieldDefinitionNotFound p'
             ∧ schemaNotDefined s ≠ fieldDefinitionNotFound p') ∧
  (∃ pre post, Error (externalFieldsNotAllowed fieldPath)
               = pre +:+ fieldPath +:+ post) ∧
  (∃ pre post, Error (fieldDefinitionNotFound fieldPath)
               = pre +:+ fieldPath +:+ post).
Proof.
  split_and!.
  - by intros ->.
  - intros m -> Hs. simpl. by rewrite Hs.
  - intros m defs -> Hs Hf. simpl. by rewrite Hs, Hf.
  - intros m defs d -> Hs Hf. simpl. by rewrite Hs, Hf.
  - intros m defs d -> Hs Hu Hd. simpl. rewrite Hs.
    unfold FindElementDefinition. by rewrite (definedAt_findSegments _ _ d).
  - intros err. unfold ImportField.
    destruct dm as [m|]; simpl; [|intros [= <-]; by left].
    destruct (schema m !! schemaName) as [defs|]; simpl;
      [|intros [= <-]; by right; left].
    destruct (FindElementDefinition fieldPath defs); simpl;
      [discriminate|intros [= <-]; by right; right].
  - intros p s p'.
    unfold externalFieldsNotAllowed, schemaNotDefined, fieldDefinitionNotFound.
    split_and!; intros [= H]; revert H; by apply app_String_ne.
  - exists ("importing external field " +:+ quote),
      (quote +:+ ": external fields not allowed because dependencies file "
         +:+ quote +:+ "_dev/build/build.yml" +:+ quote +:+ " is missing").
    reflexivity.
  - by exists "field definition not found in schema (name: ", ")".
Qed.

(** ** Merging an imported definition *)

Lemma deepUpdateValue_over_string (s : string) (val : value) :
  deepUpdateValue (Some (VStr s)) val = val.
Proof. by destruct val. Qed.

Lemma lookup_DeepUpdate (m d : MapStr) (k : string) :
  DeepUpdate m d !! k =
  match d !! k with
  | Some n => Some (deepUpdateValue (m !! k) n)
  | None => m !! k
  end.
Proof.
  unfold DeepUpdate. rewrite lookup_union, map_lookup_imap.
  destruct (d !! k) as [n|]; simpl.
  - by destruct (m !! k).
  - by destruct (m !! k).
Qed.

Lemma lookup_DeepUpdate_None (m d : MapStr) (k : string) :
  d !! k = None → DeepUpdate m d !! k = m !! k.
Proof. intros H. by rewrite lookup_DeepUpdate, H. Qed.

Lemma lookup_DeepUpdate_plain (m d : MapStr) (k : string) (v : value) :
  d !! k = Some v → (∀ d', v ≠ VMap d') → DeepUpdate m d !! k = Some v.
Proof.
  intros H Hv. rewrite lookup_DeepUpdate, H. f_equal.
  destruct v; try reflexivity. by destruct (Hv m0).
Qed.

Ltac transform_lookup fd :=
  destruct fd as [name type desc pat idx dv norm mf];
  unfold transformImportedField; fold transformImportedField; cbn zeta;
  unfold Put;
  cbn [Name Type_ Description Pattern Index DocValues Normalize MultiFields];
  repeat match goal with
  | |- context [bool_decide ?P] => destruct (bool_decide P)
  | |- context [match ?o with Some _ => _ | None => _ end !! _] => destruct o
  | |- (<[_ := _]> _) !! _ = _ => rewrite lookup_insert_ne by done
  end;
  done.

Lemma transformImportedField_type (fd : FieldDefinition) :
  transformImportedField fd !! "type" = Some (VStr (Type_ fd)).
Proof. transform_lookup fd. Qed.

Lemma transformImportedField_external (fd : FieldDefinition) :
  transformImportedField fd !! "external" = None.
Proof. transform_lookup fd. Qed.


(** The type of the merged node before it is settled: the local one
    when the node declares one, the imported one otherwise. *)
Lemma merged_type_before (imported : FieldDefinition) (def : MapStr) :
  Delete (DeepUpdate (transformImportedField imported) def) "external" !! "type"
  = match def !! "type" with
    | Some t => Some t
    | None => Some (VStr (Type_ imported))
    end.
Proof.
  unfold Delete. rewrite lookup_delete_ne by done.
  rewrite lookup_DeepUpdate, transformImportedField_type.
  destruct (def !! "type"); [|done].
  by rewrite deepUpdateValue_over_string.
Qed.

Lemma mergeImportedField_type_constant (imported : FieldDefinition)
    (def : MapStr) :
  Type_ imported = "keyword" →
  def !! "type" = Some (VStr "constant_keyword") →
  mergeImportedField imported def !! "type" = Some (VStr "constant_keyword").
Proof.
  pose proof (merged_type_before imported def) as Hbefore.
  intros Hk Hl. unfold mergeImportedField. cbn zeta.
  rewrite Hbefore, Hl, Hk. simpl. by rewrite Hbefore, Hl.
Qed.

Lemma mergeImportedField_type_cases (imported : FieldDefinition)
    (def : MapStr) :
  Type_ imported ≠ "keyword"
  ∨ def !! "type" ≠ Some (VStr "constant_keyword") →
  mergeImportedField imported def !! "type" = Some (VStr (Type_ imported)).
Proof.
  pose proof (merged_type_before imported def) as Hbefore.
  intros Hcases. unfold mergeImportedField. cbn zeta.
  rewrite Hbefore.
  destruct (bool_decide _ || bool_decide _) eqn:Hc.
  - by rewrite lookup_insert_eq.
  - apply orb_false_iff in Hc as [Hc1 Hc2].
    apply bool_decide_eq_false in Hc1, Hc2.
    apply dec_stable in Hc1, Hc2.
    destruct Hcases as [Hne|Hne]; [done|].
    destruct (def !! "type") as [t|] eqn:Ht; simpl in Hc1.
    + destruct t; simpl in Hc1; try discriminate. by subst s.
    + congruence.
Qed.

Lemma injectFieldsWithRoot_loop_external dm root def rest updated changed
    fieldPath schemaName imported :
  buildFieldPath root def = Returned fieldPath →
  (GetValue def "external").1 = VStr schemaName →
  ImportField dm schemaName fieldPath = (imported, None) →
  injectFieldsWithRoot_loop dm root (def :: rest) updated changed
  = injectFieldsWithRoot_loop dm root rest
      (appendUnlessSkipped updated (mergeImportedField imported def)) true.
Proof.
  intros Hp He Hi.
  rewrite injectFieldsWithRoot_loop_cons, Hp. cbn zeta.
  rewrite He. cbn [notNil assertString]. by rewrite Hi.
Qed.

(** C2: the type of a merged external node.  When the imported type is
    "keyword" and the local node declares the type "constant_keyword",
    the merged type is "constant_keyword"; for any other imported type
    or local declaration (no type at all included) it is the imported
    type.  The nodes this is about are those the loop merges: a node
    with an external marker whose import succeeds goes on as the merged
    node, and marks the result as changed. *)
Theorem mergeImportedField_type (imported : FieldDefinition) (def : MapStr) :
  (Type_ imported = "keyword" →
   def !! "type" = Some (VStr "constant_keyword") →
   mergeImportedField imported def !! "type" = Some (VStr "constant_keyword")) ∧
  (Type_ imported ≠ "keyword"
   ∨ def !! "type" ≠ Some (VStr "constant_keyword") →
   mergeImportedField imported def !! "type" = Some (VStr (Type_ imported))) ∧
  (∀ dm root rest updated changed fieldPath schemaName,
     buildFieldPath root def = Returned fieldPath →
     (GetValue def "external").1 = VStr schemaName →
     ImportField dm schemaName fieldPath = (imported, None) →
     injectFieldsWithRoot_loop dm root (def :: rest) updated changed
     = injectFieldsWithRoot_loop dm root rest
         (appendUnlessSkipped updated (mergeImportedField imported def)) true).
Proof.
  split_and!.
  - apply mergeImportedField_type_constant.
  - apply mergeImportedField_type_cases.
  - intros. by eapply injectFieldsWithRoot_loop_external.
Qed.

Lemma mergeImportedField_other (imported : FieldDefinition) (def : MapStr)
    (k : string) :
  k ≠ "type" →
  mergeImportedField imported def !! k
  = Delete (DeepUpdate (transformImportedField imported) def) "external" !! k.
Proof.
  intros Hk. unfold mergeImportedField. cbn zeta.
  destruct (_ || _); [|done]. by rewrite lookup_insert_ne.
Qed.

Lemma mergeImportedField_external (imported : FieldDefinition) (def : MapStr) :
  mergeImportedField imported def !! "external" = None.
Proof.
  rewrite mergeImportedField_other by done. unfold Delete.
  by rewrite lookup_delete_eq.
Qed.

Lemma mergeImportedField_plain (imported : FieldDefinition) (def : MapStr)
    (k : string) (v : value) :
  k ≠ "type" → k ≠ "external" →
  def !! k = Some v → (∀ d', v ≠ VMap d') →
  mergeImportedField imported def !! k = Some v.
Proof.
  intros Hk Hk' Hl Hv. rewrite mergeImportedField_other by done.
  unfold Delete. rewrite lookup_delete_ne by done.
  by apply lookup_DeepUpdate_plain.
Qed.

(** ** The scenario of the specification *)

(** C1, as amended: on the scenario tree, with any manager whose schema
    [ecs] defines [event], injection returns one node and the changed
    flag.  The node has no external marker, the name of the local node,
    the type the schema gives [event], and the fields of the local node
    as they were: the children of an external node are not injected. *)
Theorem InjectFields_scenario (dm : DependencyManager)
    (ecs : list FieldDefinition) (event : FieldDefinition) :
  schema dm !! "ecs" = Some ecs →
  FindElementDefinition "event" ecs = Some event →
  ∃ node,
    InjectFields (Some dm) scenarioTree = Returned ([node], true, None)
    ∧ node !! "external" = None
    ∧ node !! "name" = Some (VStr "event")
    ∧ node !! "type" = Some (VStr (Type_ event))
    ∧ node !! "fields" = Some (VSlice [VMap outcomeChild]).
Proof.
  intros Hs Hf. exists (mergeImportedField event eventNode).
  assert (Hfields : mergeImportedField event eventNode !! "fields"
                    = Some (VSlice [VMap outcomeChild])).
  { apply mergeImportedField_plain; [congruence|congruence|reflexivity|congruence]. }
  assert (Htype : mergeImportedField event eventNode !! "type"
                  = Some (VStr (Type_ event))).
  { apply mergeImportedField_type_cases. right. vm_compute. congruence. }
  split_and!.
  - unfold InjectFields, scenarioTree.
    rewrite injectFieldsWithRoot_cons, injectFieldsWithRoot_nil.
    unfold injectField.
    change (buildFieldPath "" eventNode) with (Returned (A:=string) "event").
    change ((GetValue eventNode "external").1) with (VStr "ecs").
    cbn [notNil assertString ImportField]. rewrite Hs, Hf.
    unfold appendUnlessSkipped, skipField, GetValue.
    rewrite Htype, Hfields. cbn [fst isString].
    destruct (bool_decide _); reflexivity.
  - apply mergeImportedField_external.
  - apply mergeImportedField_plain; [congruence|congruence|reflexivity|congruence].
  - exact Htype.
  - exact Hfields.
Qed.

(** When the schema does not define [event], the import fails and so
    does the injection. *)
Lemma InjectFields_scenario_unresolved (dm : DependencyManager)
    (ecs : list FieldDefinition) :
  schema dm !! "ecs" = Some ecs →
  FindElementDefinition "event" ecs = None →
  InjectFields (Some dm) scenarioTree
  = Returned ([], false,
              Some (ErrorWrap (fieldDefinitionNotFound "event")
                      "can't import field")).
Proof.
  intros Hs Hf. unfold InjectFields, scenarioTree.
  rewrite injectFieldsWithRoot_cons. unfold injectField.
  change (buildFieldPath "" eventNode) with (Returned (A:=string) "event").
  change ((GetValue eventNode "external").1) with (VStr "ecs").
  cbn [notNil assertString ImportField]. rewrite Hs, Hf. reflexivity.
Qed.

(** The scenario, run. *)
Lemma InjectFields_scenario_run :
  InjectFields scenarioManager scenarioTree
  = Returned
      ([ {[ "name" := VStr "event"; "type" := VStr "group";
            "fields" := VSlice [VMap outcomeChild];
            "multi_fields" :=
              VMapStrs [ {[ "name" := VStr "outcome";
                            "type" := VStr "keyword" ]} ] ]} ],
       true, None).
Proof. vm_compute. reflexivity. Qed.

(** C1 fails as stated: after injection, [event.outcome] is not the
    keyword definition of the schema. *)
Lemma InjectFields_scenario_not_recursive :
  ¬ ∃ node,
      InjectFields scenarioManager scenarioTree = Returned ([node], true, None)
      ∧ node !! "external" = None
      ∧ ToMapStrSlice (GetValue node "fields").1
        = ([ {[ "name" := VStr "outcome"; "type" := VStr "keyword" ]} ], None).
Proof.
  intros (node & Hrun & _ & Hchildren).
  rewrite InjectFields_scenario_run in Hrun.
  injection Hrun as <-.
  assert (Htype : outcomeChild !! "type" = Some (VStr "keyword")).
  { change outcomeChild with
      (hd ∅ (ToMapStrSlice (VSlice [VMap outcomeChild])).1).
    match type of Hchildren with
    | ToMapStrSlice ?v = _ =>
        replace v with (VSlice [VMap outcomeChild]) in Hchildren
          by (vm_compute; reflexivity)
    end.
    rewrite Hchildren. reflexivity. }
  vm_compute in Htype. discriminate.
Qed.

(** ** Failures abort the injection *)

Lemma injectFieldsWithRoot_loop_error dm root defs updated changed u c err :
  injectFieldsWithRoot_loop dm root defs updated changed
  = Returned (u, c, Some err) →
  u = [] ∧ c = false.
Proof.
  rewrite injectFieldsWithRoot_loop_acc.
  destruct (injectFieldsWithRoot dm root defs) as [|[[u' c'] [err'|]]];
    [discriminate| |discriminate].
  by intros [= <- <- _].
Qed.

Lemma notOk_head dm root def rest :
  notOk (injectField dm root def) →
  notOk (injectFieldsWithRoot dm root (def :: rest)).
Proof.
  rewrite injectFieldsWithRoot_cons.
  by destruct (injectField dm root def) as [|[[def' c] [err|]]].
Qed.

Lemma notOk_tail dm root def rest :
  notOk (injectFieldsWithRoot dm root rest) →
  notOk (injectFieldsWithRoot dm root (def :: rest)).
Proof.
  rewrite injectFieldsWithRoot_cons.
  destruct (injectField dm root def) as [|[[def' c] [err|]]]; try done.
  by destruct (injectFieldsWithRoot dm root rest) as [|[[u c'] [err|]]].
Qed.

Lemma notOk_elem dm root def defs :
  def ∈ defs →
  notOk (injectField dm root def) →
  notOk (injectFieldsWithRoot dm root defs).
Proof.
  induction defs as [|def0 rest IH]; intros Hin Hno.
  - by apply elem_of_nil in Hin.
  - apply elem_of_cons in Hin as [<-|Hin].
    + by apply notOk_head.
    + apply notOk_tail. by apply IH.
Qed.

Lemma resolutionFails_notOk dm root defs :
  resolutionFails dm root defs → notOk (injectFieldsWithRoot dm root defs).
Proof.
  induction 1 as [root defs def fieldPath schemaName zero err Hin Hp He Hi
                 |root defs def ms err Hin He Hf Hc
                 |root defs def fieldPath fieldsMs Hin Hp He Hf Hc _ IH];
    apply (notOk_elem _ _ def); try done; unfold injectField.
  - rewrite Hp. cbn zeta. rewrite He. cbn [notNil assertString].
    by rewrite Hi.
  - destruct (buildFieldPath root def); [done|]. cbn zeta.
    by rewrite He, Hf, Hc.
  - rewrite Hp. cbn zeta. rewrite He, Hf, Hc.
    by destruct (injectFieldsWithRoot dm fieldPath fieldsMs)
      as [|[[u c] [err|]]].
Qed.

(** ** No panic on named trees *)

Lemma buildFieldPath_named root def name :
  def !! "name" = Some (VStr name) →
  buildFieldPath root def
  = Returned ((if bool_decide (root ≠ "") then root +:+ "." else root) +:+ name).
Proof. intros H. unfold buildFieldPath, GetValue. by rewrite H. Qed.

Lemma buildFieldPath_unnamed root def :
  (∀ name, def !! "name" ≠ Some (VStr name)) →
  buildFieldPath root def = Panicked.
Proof.
  intros H. unfold buildFieldPath, GetValue.
  destruct (def !! "name") as [v|] eqn:Hv; [|done].
  destruct v; try done. by destruct (H s).
Qed.

Lemma buildFieldPath_Returned root def fieldPath :
  buildFieldPath root def = Returned fieldPath →
  ∃ name, def !! "name" = Some (VStr name).
Proof.
  unfold buildFieldPath, GetValue.
  destruct (def !! "name") as [v|]; [|done].
  destruct v; try done. by exists s.
Qed.

Lemma injectFieldsWithRoot_wellNamed defs :
  Forall wellNamed defs →
  ∀ dm root, injectFieldsWithRoot dm root defs ≠ Panicked.
Proof.
  induction defs as [|def rest IHfields IHrest] using field_tree_ind;
    intros Hwn dm root.
  - by rewrite injectFieldsWithRoot_nil.
  - apply Forall_cons in Hwn as [Hdef Hrest].
    destruct Hdef as [def [name Hname] Hext Hnested].
    rewrite injectFieldsWithRoot_cons.
    assert (Hfield : injectField dm root def ≠ Panicked).
    { unfold injectField. rewrite (buildFieldPath_named _ _ name Hname).
      cbn zeta. unfold GetValue at 1 2.
      destruct (def !! "external") as [v|] eqn:Hv; cbn [fst].
      - destruct (Hext v eq_refl) as [schemaName ->].
        cbn [notNil assertString].
        by destruct (ImportField dm schemaName _) as [imported [err|]].
      - cbn [notNil].
        destruct (notNil (GetValue def "fields").1) eqn:Hnn; [|done].
        destruct (ToMapStrSlice (GetValue def "fields").1)
          as [fieldsMs [err|]] eqn:Hc; [done|].
        specialize (IHfields fieldsMs eq_refl eq_refl (Hnested _ eq_refl) dm).
        specialize (IHfields
          ((if bool_decide (root ≠ "") then root +:+ "." else root) +:+ name)).
        by destruct (injectFieldsWithRoot dm _ fieldsMs)
          as [|[[u c] [err|]]]. }
    destruct (injectField dm root def) as [|[[def' c] [err|]]]; try done.
    specialize (IHrest Hrest dm root).
    by destruct (injectFieldsWithRoot dm root rest) as [|[[u c'] [err|]]].
Qed.

(** C5: a failure aborts the whole injection.  Whenever [InjectFields]
    returns an error it returns no tree with it and no changed flag.
    When injection meets a failure in the tree (an import that fails, or
    nested fields that do not convert), whatever the call returns is
    that: the nil tree, [false] and an error, never a merged tree; and
    on a tree whose nodes are named the call does return. *)
Theorem InjectFields_no_partial_result (dm : option DependencyManager)
    (defs : list MapStr) :
  (∀ out changed err,
     InjectFields dm defs = Returned (out, changed, Some err) →
     out = [] ∧ changed = false) ∧
  (resolutionFails dm "" defs →
   ∀ r, InjectFields dm defs = Returned r → ∃ err, r = ([], false, Some err)) ∧
  (resolutionFails dm "" defs → Forall wellNamed defs →
   ∃ err, InjectFields dm defs = Returned ([], false, Some err)).
Proof.
  assert (Hfailed : resolutionFails dm "" defs →
            ∀ r, InjectFields dm defs = Returned r →
                 ∃ err, r = ([], false, Some err)).
  { intros Hfails r Hr. apply resolutionFails_notOk in Hfails.
    unfold InjectFields in Hr. rewrite Hr in Hfails.
    destruct r as [[out changed] [err|]]; [|done].
    destruct (injectFieldsWithRoot_loop_error _ _ _ _ _ _ _ _ Hr) as [-> ->].
    by exists err. }
  split_and!.
  - intros out changed err. apply injectFieldsWithRoot_loop_error.
  - exact Hfailed.
  - intros Hfails Hwn.
    pose proof (injectFieldsWithRoot_wellNamed defs Hwn dm "") as Hnp.
    destruct (InjectFields dm defs) as [|r] eqn:Hr; [done|].
    destruct (Hfailed Hfails r eq_refl) as [err ->]. by exists err.
Qed.

(** C10: on a tree in which every node, at every depth, carries a name
    that is a string and, when it carries an external attribute, one
    that is a string, [InjectFields] returns: the unchecked type
    assertions are not reached with anything else.  The precondition is
    needed: a node that injection reaches without a string for a name,
    or with an external attribute that is neither nil nor a string,
    makes it panic. *)
Theorem InjectFields_total_on_named (dm : option DependencyManager)
    (defs : list MapStr) :
  (Forall wellNamed defs →
   ∃ out changed err, InjectFields dm defs = Returned (out, changed, err)) ∧
  (∀ def rest, defs = def :: rest →
     (∀ name, def !! "name" ≠ Some (VStr name)) →
     InjectFields dm defs = Panicked) ∧
  (∀ def rest v, defs = def :: rest →
     (∃ name, def !! "name" = Some (VStr name)) →
     def !! "external" = Some v → v ≠ VNil → (∀ s, v ≠ VStr s) →
     InjectFields dm defs = Panicked).
Proof.
  split_and!.
  - intros Hwn.
    pose proof (injectFieldsWithRoot_wellNamed defs Hwn dm "") as Hnp.
    unfold InjectFields.
    destruct (injectFieldsWithRoot dm "" defs) as [|[[out changed] err]];
      [done|].
    by exists out, changed, err.
  - intros def rest -> Hname. unfold InjectFields.
    rewrite injectFieldsWithRoot_cons. unfold injectField.
    by rewrite buildFieldPath_unnamed.
  - intros def rest v -> [name Hname] Hext Hnil Hstr. unfold InjectFields.
    rewrite injectFieldsWithRoot_cons. unfold injectField.
    rewrite (buildFieldPath_named _ _ name Hname). cbn zeta.
    unfold GetValue. rewrite Hext. cbn [fst].
    destruct v; try done. by destruct (Hstr s).
Qed.

(** ** Injection of a tree without external markers *)

Lemma fieldsAbsent_notNil def :
  fieldsAbsent def ↔ notNil (GetValue def "fields").1 = false.
Proof.
  unfold fieldsAbsent, GetValue.
  destruct (def !! "fields") as [v|]; cbn [fst].
  - split.
    + intros [H|H]; [discriminate|]. by injection H as ->.
    + destruct v; cbn [notNil]; try discriminate. intros _. by right.
  - split; [done|by left].
Qed.

Lemma external_None_notNil def :
  def !! "external" = None → notNil (GetValue def "external").1 = false.
Proof. intros H. unfold GetValue. by rewrite H. Qed.

(** A tree as injection leaves it is returned as it is. *)
Lemma injectFieldsWithRoot_injected defs :
  Forall injected defs →
  ∀ dm root, injectFieldsWithRoot dm root defs = Returned (defs, false, None).
Proof.
  induction defs as [|def rest IHfields IHrest] using field_tree_ind;
    intros Hinj dm root.
  - by rewrite injectFieldsWithRoot_nil.
  - apply Forall_cons in Hinj as [Hdef Hrest].
    destruct Hdef as [def [name Hname] Hext Hskip Hfields].
    rewrite injectFieldsWithRoot_cons, (IHrest Hrest).
    assert (Hfield : injectField dm root def = Returned (def, false, None)).
    { unfold injectField. rewrite (buildFieldPath_named _ _ name Hname).
      cbn zeta. rewrite (external_None_notNil _ Hext).
      destruct Hfields as [Habsent|(children & Hchildren & Hinj)].
      - apply fieldsAbsent_notNil in Habsent. by rewrite Habsent.
      - assert (Hg : (GetValue def "fields").1 = VMapStrs children).
        { unfold GetValue. by rewrite Hchildren. }
        rewrite Hg in IHfields |- *. cbn [notNil ToMapStrSlice].
        rewrite (IHfields children eq_refl eq_refl Hinj).
        unfold Put. by rewrite insert_id. }
    rewrite Hfield. unfold appendUnlessSkipped. by rewrite Hskip.
Qed.

Lemma skipField_cases def : skipField def = true ∨ skipField def = false.
Proof. destruct (skipField def); auto. Qed.

(** Without external markers nothing changes, and what is returned is
    a tree as injection leaves it. *)
Lemma injectFieldsWithRoot_noExternal defs :
  Forall noExternal defs →
  ∀ dm root out changed,
    injectFieldsWithRoot dm root defs = Returned (out, changed, None) →
    changed = false ∧ Forall injected out.
Proof.
  induction defs as [|def rest IHfields IHrest] using field_tree_ind;
    intros Hne dm root out changed.
  - rewrite injectFieldsWithRoot_nil. by intros [= <- <-].
  - apply Forall_cons in Hne as [Hdef Hrest].
    destruct Hdef as [def Hext Hnested].
    rewrite injectFieldsWithRoot_cons.
    assert (Hfield : match injectField dm root def with
                     | Returned (def', c, None) =>
                         c = false ∧ (skipField def' = false → injected def')
                     | _ => True
                     end).
    { unfold injectField.
      destruct (buildFieldPath root def) as [|fieldPath] eqn:Hp; [done|].
      apply buildFieldPath_Returned in Hp as Hname.
      cbn zeta. rewrite (external_None_notNil _ Hext).
      destruct (notNil (GetValue def "fields").1) eqn:Hnn.
      - destruct (ToMapStrSlice (GetValue def "fields").1)
          as [fieldsMs [err|]] eqn:Hc; [done|].
        specialize (IHfields fieldsMs eq_refl eq_refl (Hnested _ eq_refl)
                      dm fieldPath).
        destruct (injectFieldsWithRoot dm fieldPath fieldsMs)
          as [|[[updatedFields fieldsChanged] [err|]]]; try done.
        destruct (IHfields _ _ eq_refl) as [-> Hinj].
        split; [done|]. intros Hskip. unfold Put in *.
        constructor; try done.
        + destruct Hname as [name Hname]. exists name.
          by rewrite lookup_insert_ne.
        + by rewrite lookup_insert_ne.
        + right. exists updatedFields. by rewrite lookup_insert_eq.
      - split; [done|]. intros Hskip.
        constructor; try done. left. by apply fieldsAbsent_notNil. }
    destruct (injectField dm root def) as [|[[def' c] [err|]]]; try done.
    destruct Hfield as [-> Hdef'].
    destruct (injectFieldsWithRoot dm root rest) as [|[[u c'] [err|]]] eqn:Hr;
      try done.
    destruct (IHrest Hrest dm root _ _ Hr) as [-> Hu].
    intros [= <- <-]. split; [done|].
    unfold appendUnlessSkipped.
    destruct (skipField def') eqn:Hskip; [done|].
    apply Forall_cons. split; [by apply Hdef'|done].
Qed.

(** C7 fails as stated: a tree without external markers is not always
    returned as it is; a group without fields is dropped. *)
Lemma InjectFields_prunes_without_markers :
  Forall noExternal emptyGroupTree
  ∧ InjectFields scenarioManager emptyGroupTree = Returned ([], false, None)
  ∧ InjectFields scenarioManager emptyGroupTree
    ≠ Returned (emptyGroupTree, false, None).
Proof.
  split_and!.
  - repeat constructor.
    intros fieldsMs. vm_compute. discriminate.
  - vm_compute. reflexivity.
  - vm_compute. discriminate.
Qed.

(** C7, as amended: injection is idempotent on trees without external
    markers.  When [InjectFields] succeeds on such a tree it reports no
    change, and what it returns is a tree that a further run returns
    unchanged, again without change; and a tree in that form (nodes
    named, without markers, no group without fields, nested fields as
    slices of maps) is returned as it is. *)
Theorem InjectFields_idempotent (dm : option DependencyManager)
    (defs : list MapStr) :
  (Forall noExternal defs →
   ∀ out changed,
     InjectFields dm defs = Returned (out, changed, None) →
     changed = false ∧ Forall injected out
     ∧ InjectFields dm out = Returned (out, false, None)) ∧
  (Forall injected defs →
   InjectFields dm defs = Returned (defs, false, None)).
Proof.
  split.
  - intros Hne out changed Hrun.
    destruct (injectFieldsWithRoot_noExternal defs Hne dm "" out changed Hrun)
      as [-> Hinj].
    split_and!; try done. by apply injectFieldsWithRoot_injected.
  - intros Hinj. by apply injectFieldsWithRoot_injected.
Qed.

(** ** Loading the schema *)

Lemma HasPrefix_spec (s prefix : string) :
  strings.HasPrefix s prefix = true ↔ ∃ rest, s = prefix +:+ rest.
Proof.
  revert s. induction prefix as [|p prefix IH]; intros s; simpl.
  - split; [intros _; exists s; reflexivity|reflexivity].
  - destruct s as [|c s].
    + split; [discriminate|]. intros [rest H]. discriminate H.
    + rewrite andb_true_iff, IH, Ascii.eqb_eq. split.
      * intros [-> [rest ->]]. exists rest. reflexivity.
      * intros [rest H]. simpl in H. injection H as -> ->.
        split; [reflexivity|exists rest; reflexivity].
Qed.

Lemma asGitReference_prefixed (ref : string) :
  asGitReference ("git@" +:+ ref) = (ref, None).
Proof. reflexivity. Qed.

Lemma asGitReference_other (reference : string) :
  (∀ rest, reference ≠ "git@" +:+ rest) →
  asGitReference reference
  = ("", Some (ErrorNew ("invalid Git reference (" +:+ quote +:+ "git@"
                           +:+ quote +:+ " prefix expected)"))).
Proof.
  intros H. unfold asGitReference.
  destruct (strings.HasPrefix reference gitReferencePrefix) eqn:Hp; [|done].
  apply HasPrefix_spec in Hp as [rest Hrest]. by destruct (H rest).
Qed.

Section SchemaLoaderProperties.

Variable filepath_Join : list string → string.
Variable filepath_Dir : string → string.
Variable yaml_Unmarshal : list Byte.byte → list FieldDefinition * option error.

(** C8: a reference that does not start with "git@" makes the loading
    of the schema file fail with the error of an invalid Git
    reference, and nothing has happened by then: the surroundings are
    as they were, with no event in the trace, so no network access
    and no read or write of the cache.  The same holds for the loading
    of the schema and for the creation of the manager, when the
    reference is not empty. *)
Theorem readECSFieldsSchemaFile_invalid_reference
    (dep : ECSDependency) (w : World) :
  (∀ rest, Reference dep ≠ "git@" +:+ rest) →
  readECSFieldsSchemaFile filepath_Join filepath_Dir dep w
  = (([], Some invalidGitReference), w)
  ∧ (Reference dep ≠ "" →
     loadECSFieldsSchema filepath_Join filepath_Dir yaml_Unmarshal dep w
     = (([], Some (ErrorWrap invalidGitReference
                     "error reading ECS fields schema file")), w)
     ∧ ∃ err,
         CreateFieldDependencyManager filepath_Join filepath_Dir
           yaml_Unmarshal (mkDependencies dep) w
         = ((None, Some err), w)).
Proof.
  intros Hprefix.
  assert (Hread : readECSFieldsSchemaFile filepath_Join filepath_Dir dep w
                  = (([], Some invalidGitReference), w)).
  { unfold readECSFieldsSchemaFile.
    by rewrite (asGitReference_other _ Hprefix). }
  split; [exact Hread|]. intros Hne.
  assert (Hload : loadECSFieldsSchema filepath_Join filepath_Dir
                    yaml_Unmarshal dep w
                  = (([], Some (ErrorWrap invalidGitReference
                        "error reading ECS fields schema file")), w)).
  { unfold loadECSFieldsSchema. rewrite bool_decide_eq_false_2 by done.
    unfold bind. by rewrite Hread. }
  split; [exact Hload|]. eexists.
  unfold CreateFieldDependencyManager, buildFieldsSchema, bind.
  cbn [ECS]. rewrite Hload. reflexivity.
Qed.

(** C9: with an empty ECS reference the manager is created, without
    an error and without touching the surroundings; the key "ecs" is
    in its schema map, with no definition; so importing any path from
    "ecs" fails with the error that the definition is not found, which
    is not the error that the schema is no dependency. *)
Theorem CreateFieldDependencyManager_empty_reference (w : World) :
  ∃ dm,
    CreateFieldDependencyManager filepath_Join filepath_Dir yaml_Unmarshal
      (mkDependencies (mkECSDependency "")) w
    = ((Some dm, None), w)
    ∧ schema dm !! "ecs" = Some []
    ∧ ∀ p,
        ImportField (Some dm) "ecs" p
        = (zeroFieldDefinition, Some (fieldDefinitionNotFound p))
        ∧ fieldDefinitionNotFound p ≠ schemaNotDefined "ecs".
Proof.
  exists (mkDependencyManager (<["ecs" := []]> ∅)).
  split_and!.
  - reflexivity.
  - apply lookup_insert_eq.
  - intros p. split.
    + unfold ImportField. cbn [schema]. rewrite lookup_insert_eq.
      unfold FindElementDefinition. by destruct (segments p).
    + unfold fieldDefinitionNotFound, schemaNotDefined. intros [=].
Qed.

End SchemaLoaderProperties.

Section Cache.

Variable filepath_Join : list string → string.
Variable filepath_Dir : string → string.
Variables (ref dir : string) (w : World).

Let dep : ECSDependency := mkECSDependency ("git@" +:+ ref).
Let path : string := filepath_Join [dir; ecsSchemaName; ref; ecsSchemaFile].
Let url : string := ecsSchemaURL ref ecsSchemaFile.
Let load := readECSFieldsSchemaFile filepath_Join filepath_Dir.

Hypothesis cacheDir_w : fieldsCacheDir w = (dir, None).

(** The surroundings after the look into the cache, and after the
    steps of a fetch. *)
Let looked : World := emit (EvReadFile path) (emit EvNewLocationManager w).
Let fetched : World := emit (EvHttpGet url) looked.
Let bodyRead : World := emit (EvReadAll url) fetched.
Let dirMade : World := emit (EvMkdirAll (filepath_Dir path)) bodyRead.
Let writeTried (content : list Byte.byte) : World :=
  emit (EvWriteFile path content) dirMade.
Let written (content : list Byte.byte) : World :=
  mkWorld (fieldsCacheDir w) (<[path := inl content]> (files w)) (remote w)
    (mkdirError w) (writeError w) (trace (writeTried content)).

Lemma load_hit (content : list Byte.byte) :
  files w !! path = Some (inl content) →
  load dep w = ((content, None), looked).
Proof.
  intros Hfile. unfold load, readECSFieldsSchemaFile.
  cbn [Reference dep]. rewrite asGitReference_prefixed.
  unfold bind, locations.NewLocationManager, os.ReadFile.
  rewrite cacheDir_w. cbn [emit files]. fold path. by rewrite Hfile.
Qed.

(** On a miss the loader goes on to the fetch. *)
Lemma load_miss :
  files w !! path = None →
  load dep w =
  match remote w url with
  | (_, Some err) =>
      (([], Some (ErrorWrap err
          ("can't download the online schema (URL: " +:+ url +:+ ")"))),
       fetched)
  | (resp, None) =>
      if bool_decide (StatusCode resp = http.StatusNotFound) then
        (([], Some (unsatisfiedDependency url)), fetched)
      else if bool_decide (StatusCode resp ≠ http.StatusOK) then
        (([], Some (unexpectedStatus (StatusCode resp))), fetched)
      else
        match Body resp with
        | (_, Some err) =>
            (([], Some (ErrorWrap err
                ("can't read schema content (URL: " +:+ url +:+ ")"))),
             bodyRead)
        | (content, None) =>
            match mkdirError w (filepath_Dir path) with
            | Some err =>
                (([], Some (ErrorWrap err
                    ("can't create cache directories for schema (path: "
                     +:+ filepath_Dir path +:+ ")"))),
                 dirMade)
            | None =>
                match writeError w path with
                | Some err =>
                    (([], Some (ErrorWrap err
                        ("can't write cached schema (path: " +:+ path +:+ ")"))),
                     writeTried content)
                | None => ((content, None), written content)
                end
            end
        end
  end.
Proof.
  intros Hfile. unfold load, readECSFieldsSchemaFile.
  cbn [Reference dep]. rewrite asGitReference_prefixed.
  unfold bind, locations.NewLocationManager, os.ReadFile.
  rewrite cacheDir_w. cbn [emit files]. fold path. rewrite Hfile.
  change (errors.Is (ErrorWrap os.ErrNotExist ("open " +:+ path))
            os.ErrNotExist) with true.
  cbn match. fold url. unfold http.Get. cbn [emit remote].
  destruct (remote w url) as [resp [err|]]; [reflexivity|].
  unfold ret.
  destruct (bool_decide (StatusCode resp = http.StatusNotFound));
    [reflexivity|].
  destruct (bool_decide (StatusCode resp ≠ http.StatusOK)); [reflexivity|].
  unfold io.ReadAll.
  destruct (Body resp) as [content [err|]]; [reflexivity|].
  unfold os.MkdirAll. cbn [emit mkdirError].
  destruct (mkdirError w (filepath_Dir path)) as [err|]; [reflexivity|].
  unfold os.WriteFile. cbn [emit writeError].
  destruct (writeError w path) as [err|]; reflexivity.
Qed.

End Cache.

Lemma newEvents_app (w w' : World) (evs : list Event) :
  trace w' = trace w ++ evs → newEvents w w' = evs.
Proof. intros H. unfold newEvents. by rewrite H, drop_app_length. Qed.

Lemma unsatisfied_not_unexpected (url : string) (code : Z) :
  unsatisfiedDependency url ≠ unexpectedStatus code.
Proof.
  unfold unsatisfiedDependency, unexpectedStatus. intros H.
  injection H as H. simpl in H. discriminate H.
Qed.

Section CacheProperties.

Variable filepath_Join : list string → string.
Variable filepath_Dir : string → string.

(** C6, as amended: the loading of the schema file of a reference
    [git@ref], with the cache directory at hand.  When the cached file
    is there and readable, the loader returns its bytes, without a
    fetch and without a write.  When the file is not there, the loader
    fetches exactly once; it writes to the cache exactly once when the
    fetch succeeded (status 200 and a readable body) and the cache
    directory could be made, and not at all otherwise; when the write
    succeeds too, the bytes fetched are returned and cached, and a
    second loading returns them without a fetch.  On a miss a 404
    answer fails with the error of the unsatisfied dependency, any
    other status than 200 with the error of the unexpected status,
    and the two differ. *)
Theorem readECSFieldsSchemaFile_cache (ref dir : string) (w : World) :
  let dep := mkECSDependency ("git@" +:+ ref) in
  let path := filepath_Join [dir; ecsSchemaName; ref; ecsSchemaFile] in
  let url := ecsSchemaURL ref ecsSchemaFile in
  let load := readECSFieldsSchemaFile filepath_Join filepath_Dir in
  fieldsCacheDir w = (dir, None) →
  (∀ content, files w !! path = Some (inl content) →
     ∃ w', load dep w = ((content, None), w')
           ∧ countEvents isFetch (newEvents w w') = 0
           ∧ countEvents isCacheWrite (newEvents w w') = 0) ∧
  (files w !! path = None →
     ∃ r w', load dep w = (r, w')
             ∧ countEvents isFetch (newEvents w w') = 1
             ∧ (fetchedForCache w url (filepath_Dir path) →
                countEvents isCacheWrite (newEvents w w') = 1)
             ∧ (¬ fetchedForCache w url (filepath_Dir path) →
                countEvents isCacheWrite (newEvents w w') = 0)) ∧
  (∀ content, files w !! path = None →
     fetchedForCache w url (filepath_Dir path) →
     (remote w url).1.(Body).1 = content →
     writeError w path = None →
     ∃ w' w'', load dep w = ((content, None), w')
               ∧ files w' !! path = Some (inl content)
               ∧ load dep w' = ((content, None), w'')
               ∧ countEvents isFetch (newEvents w' w'') = 0) ∧
  (∀ resp, files w !! path = None → remote w url = (resp, None) →
     StatusCode resp = http.StatusNotFound →
     (load dep w).1 = ([], Some (unsatisfiedDependency url))) ∧
  (∀ resp, files w !! path = None → remote w url = (resp, None) →
     StatusCode resp ≠ http.StatusNotFound →
     StatusCode resp ≠ http.StatusOK →
     (load dep w).1 = ([], Some (unexpectedStatus (StatusCode resp)))) ∧
  (∀ code, unsatisfiedDependency url ≠ unexpectedStatus code).
Proof.
  intros dep path url load Hdir.
  pose proof (load_hit filepath_Join filepath_Dir ref dir) as Hhit.
  pose proof (load_miss filepath_Join filepath_Dir ref dir w Hdir) as Hmiss.
  cbn zeta in Hhit, Hmiss. fold path url dep load in Hhit, Hmiss.
  split_and!.
  - intros content Hfile. eexists. split; [by apply Hhit|].
    rewrite (newEvents_app _ _ [EvNewLocationManager; EvReadFile path]);
      [done|].
    cbn [trace emit]. by rewrite <- app_assoc.
  - intros Hfile. specialize (Hmiss Hfile). rewrite Hmiss.
    unfold fetchedForCache.
    destruct (remote w url) as [resp [err|]] eqn:Hremote.
    { eexists _, _. split; [reflexivity|].
      rewrite (newEvents_app _ _
        [EvNewLocationManager; EvReadFile path; EvHttpGet url]);
        [|cbn [trace emit]; by rewrite <- !app_assoc].
      split_and!; [done| |done].
      intros (resp' & content & [=] & _). }
    case_bool_decide as Hnf.
    { eexists _, _. split; [reflexivity|].
      rewrite (newEvents_app _ _
        [EvNewLocationManager; EvReadFile path; EvHttpGet url]);
        [|cbn [trace emit]; by rewrite <- !app_assoc].
      split_and!; [done| |done].
      intros (resp' & content & [= <-] & Hok & _).
      rewrite Hnf in Hok. discriminate Hok. }
    case_bool_decide as Hok.
    { eexists _, _. split; [reflexivity|].
      rewrite (newEvents_app _ _
        [EvNewLocationManager; EvReadFile path; EvHttpGet url]);
        [|cbn [trace emit]; by rewrite <- !app_assoc].
      split_and!; [done| |done].
      intros (resp' & content & [= <-] & Hok' & _). done. }
    destruct (Body resp) as [content [err|]] eqn:Hbody.
    { eexists _, _. split; [reflexivity|].
      rewrite (newEvents_app _ _
        [EvNewLocationManager; EvReadFile path; EvHttpGet url;
         EvReadAll url]);
        [|cbn [trace emit]; by rewrite <- !app_assoc].
      split_and!; [done| |done].
      intros (resp' & content' & [= <-] & _ & Hb & _).
      rewrite Hbody in Hb. discriminate Hb. }
    destruct (mkdirError w (filepath_Dir path)) as [err|] eqn:Hmk.
    { eexists _, _. split; [reflexivity|].
      rewrite (newEvents_app _ _
        [EvNewLocationManager; EvReadFile path; EvHttpGet url;
         EvReadAll url; EvMkdirAll (filepath_Dir path)]);
        [|cbn [trace emit]; by rewrite <- !app_assoc].
      split_and!; [done| |done].
      intros (resp' & content' & _ & _ & _ & [=]). }
    assert (Hcond : ∃ resp0 content0,
              (resp, @None error) = (resp0, None)
              ∧ StatusCode resp0 = http.StatusOK
              ∧ Body resp0 = (content0, None)
              ∧ @None error = None).
    { exists resp, content. split_and!; try done; by apply dec_stable. }
    destruct (writeError w path) as [err|].
    all: eexists _, _; (split; [reflexivity|]).
    all: rewrite (newEvents_app _ _
        [EvNewLocationManager; EvReadFile path; EvHttpGet url;
         EvReadAll url; EvMkdirAll (filepath_Dir path);
         EvWriteFile path content]);
        [|cbn [trace emit]; by rewrite <- !app_assoc].
    all: split_and!; [done|done|done].
  - intros content Hfile (resp & content' & Hremote & Hok & Hbody & Hmk)
      Hcontent Hwrite.
    rewrite Hremote in Hcontent. cbn [fst] in Hcontent.
    rewrite Hbody in Hcontent. cbn [fst] in Hcontent. subst content'.
    specialize (Hmiss Hfile).
    rewrite Hremote, Hbody, Hmk, Hwrite in Hmiss.
    rewrite bool_decide_eq_false_2 in Hmiss
      by (rewrite Hok; discriminate).
    rewrite bool_decide_eq_false_2 in Hmiss by (by intros H; apply H).
    eexists _, _. split; [exact Hmiss|].
    cbn [files]. split; [apply lookup_insert_eq|].
    split.
    + apply Hhit; [exact Hdir|]. cbn [files]. apply lookup_insert_eq.
    + rewrite (newEvents_app _ _ [EvNewLocationManager; EvReadFile path]);
        [done|].
      cbn [trace emit]. by rewrite <- !app_assoc.
  - intros resp Hfile Hremote Hnf. specialize (Hmiss Hfile).
    rewrite Hremote in Hmiss. rewrite bool_decide_eq_true_2 in Hmiss by done.
    by rewrite Hmiss.
  - intros resp Hfile Hremote Hnf Hok. specialize (Hmiss Hfile).
    rewrite Hremote in Hmiss.
    rewrite bool_decide_eq_false_2 in Hmiss by done.
    rewrite bool_decide_eq_true_2 in Hmiss by done.
    by rewrite Hmiss.
  - intros code. apply unsatisfied_not_unexpected.
Qed.

End CacheProperties.

(** * The properties on examples *)

Lemma InjectFields_scenario_witness :
  ∃ node,
    InjectFields scenarioManager scenarioTree = Returned ([node], true, None)
    ∧ node !! "external" = None
    ∧ node !! "name" = Some (VStr "event")
    ∧ node !! "type" = Some (VStr (Type_ eventGroup))
    ∧ node !! "fields" = Some (VSlice [VMap outcomeChild]).
Proof.
  apply (InjectFields_scenario
           (mkDependencyManager {[ "ecs" := scenarioSchema ]})
           scenarioSchema eventGroup).
  - vm_compute. reflexivity.
  - vm_compute. reflexivity.
Defined.

Lemma mergeImportedField_type_witness :
  mergeImportedField outcomeKeyword constantOutcome !! "type"
  = Some (VStr "constant_keyword")
  ∧ mergeImportedField outcomeKeyword textOutcome !! "type"
    = Some (VStr "keyword")
  ∧ injectFieldsWithRoot_loop scenarioManager "event" [constantOutcome] [] false
    = injectFieldsWithRoot_loop scenarioManager "event" []
        (appendUnlessSkipped []
           (mergeImportedField outcomeKeyword constantOutcome)) true.
Proof.
  split; [|split].
  - apply (proj1 (mergeImportedField_type outcomeKeyword constantOutcome)).
    + reflexivity.
    + vm_compute. reflexivity.
  - apply (proj1 (proj2 (mergeImportedField_type outcomeKeyword textOutcome))).
    right. vm_compute. discriminate.
  - apply (proj2 (proj2 (mergeImportedField_type outcomeKeyword constantOutcome))
             scenarioManager "event" [] [] false "event.outcome" "ecs").
    + vm_compute. reflexivity.
    + vm_compute. reflexivity.
    + vm_compute. reflexivity.
Defined.

Lemma scenarioSchema_uniqueNames : uniqueNames scenarioSchema.
Proof.
  constructor.
  - vm_compute. repeat constructor. intros H. inversion H.
  - intros d Hd. apply list_elem_of_singleton in Hd. subst d.
    constructor.
    + vm_compute. repeat constructor. intros H. inversion H.
    + intros d Hd. apply list_elem_of_singleton in Hd. subst d.
      constructor.
      * constructor.
      * intros d Hd. inversion Hd.
Defined.

Lemma ImportField_cases_witness :
  ImportField None "ecs" "event"
  = (zeroFieldDefinition, Some (externalFieldsNotAllowed "event"))
  ∧ ImportField scenarioManager "other" "event"
    = (zeroFieldDefinition, Some (schemaNotDefined "other"))
  ∧ ImportField scenarioManager "ecs" "event.result"
    = (zeroFieldDefinition, Some (fieldDefinitionNotFound "event.result"))
  ∧ ImportField scenarioManager "ecs" "event.outcome" = (outcomeKeyword, None)
  ∧ ImportField scenarioManager "ecs" "event" = (eventGroup, None).
Proof.
  split_and!.
  - apply (proj1 (ImportField_cases None "ecs" "event")). reflexivity.
  - apply (proj1 (proj2 (ImportField_cases scenarioManager "other" "event"))
             (mkDependencyManager {[ "ecs" := scenarioSchema ]})).
    + reflexivity.
    + vm_compute. reflexivity.
  - apply (proj1 (proj2 (proj2
             (ImportField_cases scenarioManager "ecs" "event.result")))
             (mkDependencyManager {[ "ecs" := scenarioSchema ]}) scenarioSchema).
    + reflexivity.
    + vm_compute. reflexivity.
    + vm_compute. reflexivity.
  - apply (proj1 (proj2 (proj2 (proj2 (proj2
             (ImportField_cases scenarioManager "ecs" "event.outcome")))))
             (mkDependencyManager {[ "ecs" := scenarioSchema ]}) scenarioSchema).
    + reflexivity.
    + vm_compute. reflexivity.
    + apply scenarioSchema_uniqueNames.
    + change (segments "event.outcome") with ["event"; "outcome"].
      apply (defined_below _ _ _ eventGroup).
      * left.
      * reflexivity.
      * discriminate.
      * apply defined_here; [left|reflexivity].
  - apply (proj1 (proj2 (proj2 (proj2
             (ImportField_cases scenarioManager "ecs" "event"))))
             (mkDependencyManager {[ "ecs" := scenarioSchema ]}) scenarioSchema).
    + reflexivity.
    + vm_compute. reflexivity.
    + vm_compute. reflexivity.
Defined.

Lemma scenarioTree_wellNamed : Forall wellNamed scenarioTree.
Proof.
  repeat constructor.
  - exists "event". vm_compute. reflexivity.
  - intros v H. vm_compute in H. injection H as <-. by exists "ecs".
  - intros fieldsMs H. vm_compute in H. injection H as <-.
    repeat constructor.
    + exists "outcome". vm_compute. reflexivity.
    + intros v H. vm_compute in H. discriminate H.
    + intros fieldsMs H. vm_compute in H. discriminate H.
Defined.

Lemma InjectFields_no_partial_result_witness :
  ([] = @nil MapStr ∧ false = false)
  ∧ (∃ err,
       ([], false,
        Some (ErrorWrap (externalFieldsNotAllowed "event") "can't import field"))
       = (@nil MapStr, false, Some err))
  ∧ ∃ err, InjectFields None scenarioTree = Returned ([], false, Some err).
Proof.
  assert (Hfails : resolutionFails None "" scenarioTree).
  { apply (fails_import None "" scenarioTree eventNode "event" "ecs"
             zeroFieldDefinition (externalFieldsNotAllowed "event")).
    - left.
    - vm_compute. reflexivity.
    - vm_compute. reflexivity.
    - reflexivity. }
  split; [|split].
  - apply (proj1 (InjectFields_no_partial_result None scenarioTree)
             [] false
             (ErrorWrap (externalFieldsNotAllowed "event")
                "can't import field")).
    vm_compute. reflexivity.
  - apply (proj1 (proj2 (InjectFields_no_partial_result None scenarioTree))).
    + exact Hfails.
    + vm_compute. reflexivity.
  - apply (proj2 (proj2 (InjectFields_no_partial_result None scenarioTree))).
    + exact Hfails.
    + exact scenarioTree_wellNamed.
Defined.

Lemma InjectFields_total_on_named_witness :
  (∃ out changed err,
     InjectFields scenarioManager scenarioTree = Returned (out, changed, err))
  ∧ InjectFields scenarioManager [unnamedNode] = Panicked
  ∧ InjectFields scenarioManager [oddExternalNode] = Panicked.
Proof.
  split_and!.
  - apply (proj1 (InjectFields_total_on_named scenarioManager scenarioTree)).
    exact scenarioTree_wellNamed.
  - apply (proj1 (proj2
             (InjectFields_total_on_named scenarioManager [unnamedNode]))
             unnamedNode []).
    + reflexivity.
    + intros name H. vm_compute in H. discriminate H.
  - apply (proj2 (proj2
             (InjectFields_total_on_named scenarioManager [oddExternalNode]))
             oddExternalNode [] (VBool true)).
    + reflexivity.
    + exists "a". vm_compute. reflexivity.
    + vm_compute. reflexivity.
    + discriminate.
    + discriminate.
Defined.

Lemma plainTree_noExternal : Forall noExternal plainTree.
Proof.
  repeat constructor.
  - intros fieldsMs H. vm_compute in H. injection H as <-.
    repeat constructor.
    intros fieldsMs H. vm_compute in H. discriminate H.
  - intros fieldsMs H. vm_compute in H. discriminate H.
Defined.

Lemma plainTreeInjected_injected : Forall injected plainTreeInjected.
Proof.
  apply Forall_cons. split; [|constructor].
  apply injected_node.
  - exists "a". vm_compute. reflexivity.
  - vm_compute. reflexivity.
  - vm_compute. reflexivity.
  - right. exists [ {[ "name" := VStr "b"; "type" := VStr "keyword" ]} ].
    split; [vm_compute; reflexivity|].
    apply Forall_cons. split; [|constructor].
    apply injected_node.
    + exists "b". vm_compute. reflexivity.
    + vm_compute. reflexivity.
    + vm_compute. reflexivity.
    + left. left. vm_compute. reflexivity.
Defined.

Lemma InjectFields_idempotent_witness :
  (false = false ∧ Forall injected plainTreeInjected
   ∧ InjectFields None plainTreeInjected
     = Returned (plainTreeInjected, false, None))
  ∧ InjectFields scenarioManager plainTreeInjected
    = Returned (plainTreeInjected, false, None).
Proof.
  split.
  - apply (proj1 (InjectFields_idempotent None plainTree)
             plainTree_noExternal plainTreeInjected false).
    vm_compute. reflexivity.
  - apply (proj2 (InjectFields_idempotent scenarioManager plainTreeInjected)).
    exact plainTreeInjected_injected.
Defined.

Lemma readECSFieldsSchemaFile_invalid_reference_witness :
  readECSFieldsSchemaFile joinPath dirOf (mkECSDependency "v8.0.0")
    (answering 200 [])
  = (([], Some invalidGitReference), answering 200 [])
  ∧ (loadECSFieldsSchema joinPath dirOf noDefinitions
       (mkECSDependency "v8.0.0") (answering 200 [])
     = (([], Some (ErrorWrap invalidGitReference
                     "error reading ECS fields schema file")),
        answering 200 [])
     ∧ ∃ err,
         CreateFieldDependencyManager joinPath dirOf noDefinitions
           (mkDependencies (mkECSDependency "v8.0.0")) (answering 200 [])
         = ((None, Some err), answering 200 [])).
Proof.
  pose proof (readECSFieldsSchemaFile_invalid_reference joinPath dirOf
                noDefinitions (mkECSDependency "v8.0.0") (answering 200 []))
    as H.
  assert (Hprefix : ∀ rest,
            Reference (mkECSDependency "v8.0.0") ≠ "git@" +:+ rest).
  { intros rest Heq. simpl in Heq. discriminate Heq. }
  destruct (H Hprefix) as [Hread Hload].
  split; [exact Hread|]. apply Hload. simpl. discriminate.
Defined.

Lemma readECSFieldsSchemaFile_cache_witness :
  (∃ w', readECSFieldsSchemaFile joinPath dirOf v8 (cachedWorld [Byte.x61])
         = (([Byte.x61], None), w')
         ∧ countEvents isFetch (newEvents (cachedWorld [Byte.x61]) w') = 0
         ∧ countEvents isCacheWrite (newEvents (cachedWorld [Byte.x61]) w') = 0)
  ∧ (∃ w' w'',
       readECSFieldsSchemaFile joinPath dirOf v8 (answering 200 [Byte.x61])
       = (([Byte.x61], None), w')
       ∧ files w' !! v8Path = Some (inl [Byte.x61])
       ∧ readECSFieldsSchemaFile joinPath dirOf v8 w' = (([Byte.x61], None), w'')
       ∧ countEvents isFetch (newEvents w' w'') = 0)
  ∧ (readECSFieldsSchemaFile joinPath dirOf v8 (answering 404 [])).1
    = ([], Some (unsatisfiedDependency v8URL))
  ∧ (readECSFieldsSchemaFile joinPath dirOf v8 (answering 500 [])).1
    = ([], Some (unexpectedStatus 500)).
Proof.
  split_and!.
  - apply (proj1 (readECSFieldsSchemaFile_cache joinPath dirOf
                    "v8.0.0" "/cache/fields" (cachedWorld [Byte.x61])
                    eq_refl)).
    vm_compute. reflexivity.
  - apply (proj1 (proj2 (proj2 (readECSFieldsSchemaFile_cache joinPath dirOf
                    "v8.0.0" "/cache/fields" (answering 200 [Byte.x61])
                    eq_refl)))).
    + vm_compute. reflexivity.
    + exists (mkResponse 200 ([Byte.x61], None)), [Byte.x61].
      split_and!; reflexivity.
    + reflexivity.
    + reflexivity.
  - apply (proj1 (proj2 (proj2 (proj2 (readECSFieldsSchemaFile_cache
                    joinPath dirOf "v8.0.0" "/cache/fields" (answering 404 [])
                    eq_refl))))
             (mkResponse 404 ([], None))).
    + vm_compute. reflexivity.
    + reflexivity.
    + reflexivity.
  - apply (proj1 (proj2 (proj2 (proj2 (proj2 (readECSFieldsSchemaFile_cache
                    joinPath dirOf "v8.0.0" "/cache/fields" (answering 500 [])
                    eq_refl)))))
             (mkResponse 500 ([], None))).
    + vm_compute. reflexivity.
    + reflexivity.
    + vm_compute. discriminate.
    + vm_compute. discriminate.
Defined.

(** C6 fails as stated: on a cache miss answered with 404 the loader
    fetches once and writes nothing to the cache. *)
Lemma cache_miss_without_write :
  files (answering 404 []) !! v8Path = None
  ∧ countEvents isFetch
      (newEvents (answering 404 [])
         (readECSFieldsSchemaFile joinPath dirOf v8 (answering 404 [])).2) = 1
  ∧ countEvents isCacheWrite
      (newEvents (answering 404 [])
         (readECSFieldsSchemaFile joinPath dirOf v8 (answering 404 [])).2) = 0
  ∧ ¬ (countEvents isFetch
         (newEvents (answering 404 [])
            (readECSFieldsSchemaFile joinPath dirOf v8 (answering 404 [])).2) = 1
       ∧ countEvents isCacheWrite
           (newEvents (answering 404 [])
              (readECSFieldsSchemaFile joinPath dirOf v8 (answering 404 [])).2)
         = 1).
Proof.
  split_and!.
  - vm_compute. reflexivity.
  - vm_compute. reflexivity.
  - vm_compute. reflexivity.
  - vm_compute. intros [_ H]. discriminate H.
Qed.

(** * Further properties of the injection *)

(** What a successful iteration did to its node. *)
Lemma injectField_Returned dm root def def' c :
  injectField dm root def = Returned (def', c, None) →
  ∃ fieldPath,
    buildFieldPath root def = Returned fieldPath ∧
    ((∃ schemaName imported,
        (GetValue def "external").1 = VStr schemaName
        ∧ ImportField dm schemaName fieldPath = (imported, None)
        ∧ def' = mergeImportedField imported def ∧ c = true)
     ∨ (notNil (GetValue def "external").1 = false
        ∧ notNil (GetValue def "fields").1 = true
        ∧ ∃ fieldsMs updatedFields,
            ToMapStrSlice (GetValue def "fields").1 = (fieldsMs, None)
            ∧ injectFieldsWithRoot dm fieldPath fieldsMs
              = Returned (updatedFields, c, None)
            ∧ def' = Put def "fields" (VMapStrs updatedFields))
     ∨ (notNil (GetValue def "external").1 = false
        ∧ notNil (GetValue def "fields").1 = false
        ∧ def' = def ∧ c = false)).
Proof.
  unfold injectField.
  destruct (buildFieldPath root def) as [|fieldPath]; [discriminate|].
  cbn zeta. intros H. exists fieldPath. split; [reflexivity|].
  destruct (notNil (GetValue def "external").1) eqn:Hext.
  - left. destruct ((GetValue def "external").1) as [| s | | | | | |];
      try discriminate.
    cbn [assertString] in H.
    destruct (ImportField dm s fieldPath) as [imported [err|]] eqn:Hi;
      [discriminate|].
    injection H as <- <-. by exists s, imported.
  - right. destruct (notNil (GetValue def "fields").1) eqn:Hf.
    + left. split_and!; try done.
      destruct (ToMapStrSlice (GetValue def "fields").1)
        as [fieldsMs [err|]] eqn:Hc; [discriminate|].
      destruct (injectFieldsWithRoot dm fieldPath fieldsMs)
        as [|[[updatedFields fieldsChanged] [err|]]] eqn:Hr; try discriminate.
      injection H as <- <-. by exists fieldsMs, updatedFields.
    + right. injection H as <- <-. done.
Qed.

(** What a successful run did to the head of the list and to the rest. *)
Lemma injectFieldsWithRoot_cons_Returned dm root def rest out changed :
  injectFieldsWithRoot dm root (def :: rest) = Returned (out, changed, None) →
  ∃ def' c1 u c2,
    injectField dm root def = Returned (def', c1, None)
    ∧ injectFieldsWithRoot dm root rest = Returned (u, c2, None)
    ∧ out = appendUnlessSkipped [] def' ++ u
    ∧ changed = c1 || c2.
Proof.
  rewrite injectFieldsWithRoot_cons.
  destruct (injectField dm root def) as [|[[def' c1] [err|]]]; try discriminate.
  destruct (injectFieldsWithRoot dm root rest) as [|[[u c2] [err|]]];
    try discriminate.
  intros [= <- <-]. by exists def', c1, u, c2.
Qed.

(** X1: injection works node by node, from left to right.  The result
    on two lists put one after the other is the result on the first
    followed by the result on the second, with the changed flags
    joined; when the first fails (or panics) the second is not looked
    at, and a failure of either is the failure of the whole. *)
Theorem injectFieldsWithRoot_app (dm : option DependencyManager)
    (root : string) (defs1 defs2 : list MapStr) :
  injectFieldsWithRoot dm root (defs1 ++ defs2) =
  match injectFieldsWithRoot dm root defs1 with
  | Panicked => Panicked
  | Returned (_, _, Some err) => Returned ([], false, Some err)
  | Returned (updated1, changed1, None) =>
      match injectFieldsWithRoot dm root defs2 with
      | Panicked => Panicked
      | Returned (_, _, Some err) => Returned ([], false, Some err)
      | Returned (updated2, changed2, None) =>
          Returned (updated1 ++ updated2, changed1 || changed2, None)
      end
  end.
Proof.
  induction defs1 as [|def rest IH].
  - rewrite injectFieldsWithRoot_nil. cbn [app].
    destruct (injectFieldsWithRoot dm root defs2) as [|[[u c] [err|]]] eqn:Hr;
      try done.
    by destruct (injectFieldsWithRoot_loop_error _ _ _ _ _ _ _ _ Hr) as [-> ->].
  - rewrite <- app_comm_cons, !injectFieldsWithRoot_cons, IH.
    destruct (injectField dm root def) as [|[[def' c1] [err|]]]; try done.
    destruct (injectFieldsWithRoot dm root rest) as [|[[u c2] [err|]]];
      try done.
    destruct (injectFieldsWithRoot dm root defs2) as [|[[u2 c3] [err|]]];
      try done.
    by rewrite app_assoc, orb_assoc.
Qed.

Lemma injectField_name dm root def def' c :
  injectField dm root def = Returned (def', c, None) →
  def' !! "name" = def !! "name".
Proof.
  intros H. apply injectField_Returned in H as (fieldPath & Hp & H).
  apply buildFieldPath_Returned in Hp as [name Hname].
  destruct H as [(s & imported & _ & _ & -> & _)
                |[(_ & _ & ms & u & _ & _ & ->)|(_ & _ & -> & _)]].
  - rewrite Hname. by apply mergeImportedField_plain.
  - unfold Put. by rewrite lookup_insert_ne.
  - done.
Qed.

(** X2: the output keeps the order of the input.  When injection
    succeeds, the names of the nodes it returns are the names of the
    input nodes, in the same order, less those of the nodes dropped; a
    node that is kept keeps its name, also when it was merged with an
    imported definition. *)
Theorem injectFieldsWithRoot_names (dm : option DependencyManager)
    (root : string) (defs out : list MapStr) (changed : bool) :
  injectFieldsWithRoot dm root defs = Returned (out, changed, None) →
  sublist ((λ def : MapStr, def !! "name") <$> out)
          ((λ def : MapStr, def !! "name") <$> defs)
  ∧ length out ≤ length defs.
Proof.
  revert out changed. induction defs as [|def rest IH]; intros out changed.
  - rewrite injectFieldsWithRoot_nil. intros [= <- <-]. split; [constructor|done].
  - intros H.
    apply injectFieldsWithRoot_cons_Returned in H
      as (def' & c1 & u & c2 & Hfield & Hrest & -> & ->).
    destruct (IH _ _ Hrest) as [Hsub Hlen].
    apply injectField_name in Hfield. unfold appendUnlessSkipped.
    destruct (skipField def'); cbn [app fmap list_fmap length].
    + split; [by apply sublist_cons|lia].
    + rewrite Hfield. split; [by apply sublist_skip|lia].
Qed.

Lemma injectField_external dm root def def' c :
  injectField dm root def = Returned (def', c, None) →
  notNil (GetValue def' "external").1 = false.
Proof.
  intros H. apply injectField_Returned in H as (fieldPath & _ & H).
  destruct H as [(s & imported & _ & _ & -> & _)
                |[(He & _ & ms & u & _ & _ & ->)|(He & _ & -> & _)]].
  - unfold GetValue. by rewrite mergeImportedField_external.
  - unfold GetValue, Put in *. by rewrite lookup_insert_ne.
  - done.
Qed.

(** X3: what injection returns needs no further pruning and no further
    resolution at its top level: no node of the output is a group
    without fields, and none carries an external marker. *)
Theorem injectFieldsWithRoot_output (dm : option DependencyManager)
    (root : string) (defs out : list MapStr) (changed : bool) :
  injectFieldsWithRoot dm root defs = Returned (out, changed, None) →
  Forall (λ def, skipField def = false
                 ∧ notNil (GetValue def "external").1 = false) out.
Proof.
  revert out changed. induction defs as [|def rest IH]; intros out changed.
  - rewrite injectFieldsWithRoot_nil. intros [= <- <-]. constructor.
  - intros H.
    apply injectFieldsWithRoot_cons_Returned in H
      as (def' & c1 & u & c2 & Hfield & Hrest & -> & ->).
    specialize (IH _ _ Hrest). apply injectField_external in Hfield.
    unfold appendUnlessSkipped.
    destruct (skipField def') eqn:Hskip; cbn [app]; [done|].
    by constructor.
Qed.

Lemma buildFieldPath_cases (def : MapStr) :
  (∃ name, def !! "name" = Some (VStr name))
  ∨ (∀ root, buildFieldPath root def = Panicked).
Proof.
  destruct (def !! "name") as [v|] eqn:Hv.
  - destruct v; try (right; intros root; apply buildFieldPath_unnamed;
                     intros name; rewrite Hv; discriminate).
    left. by exists s.
  - right. intros root. apply buildFieldPath_unnamed. intros name.
    rewrite Hv. discriminate.
Qed.

Lemma marked_cons (def : MapStr) (rest : list MapStr) :
  marked (def :: rest) ↔
  notNil (GetValue def "external").1 = true
  ∨ (notNil (GetValue def "external").1 = false
     ∧ notNil (GetValue def "fields").1 = true
     ∧ ∃ fieldsMs,
         ToMapStrSlice (GetValue def "fields").1 = (fieldsMs, None)
         ∧ marked fieldsMs)
  ∨ marked rest.
Proof.
  split.
  - intros H. remember (def :: rest) as defs eqn:Hdefs.
    destruct H as [defs def0 Hin He|defs def0 ms Hin He Hf Hc Hm];
      subst defs; apply elem_of_cons in Hin as [->|Hin].
    + by left.
    + right; right. by eapply marked_here.
    + right; left. split_and!; try done. by exists ms.
    + right; right. by eapply marked_below.
  - intros [He|[(He & Hf & ms & Hc & Hm)|Hm]].
    + eapply marked_here; [left|done].
    + eapply marked_below; [left|done..].
    + destruct Hm as [defs def0 Hin He|defs def0 ms Hin He Hf Hc Hm'].
      * eapply marked_here; [by right|done].
      * eapply marked_below; [by right|done..].
Qed.

Lemma marked_nil : ¬ marked [].
Proof.
  intros H. remember [] as defs eqn:Hdefs.
  destruct H as [defs def Hin _|defs def ms Hin _ _ _ _]; subst defs;
    by apply elem_of_nil in Hin.
Qed.

Lemma injectFieldsWithRoot_changed_marked defs :
  ∀ dm root out changed,
    injectFieldsWithRoot dm root defs = Returned (out, changed, None) →
    changed = true ↔ marked defs.
Proof.
  induction defs as [|def rest IHfields IHrest] using field_tree_ind;
    intros dm root out changed.
  - rewrite injectFieldsWithRoot_nil. intros [= <- <-].
    split; [discriminate|]. intros H. by apply marked_nil in H.
  - intros H.
    apply injectFieldsWithRoot_cons_Returned in H
      as (def' & c1 & u & c2 & Hfield & Hrest & -> & ->).
    specialize (IHrest dm root u c2 Hrest).
    rewrite marked_cons, orb_true_iff.
    apply injectField_Returned in Hfield as (fieldPath & _ & Hfield).
    destruct Hfield as [(s & imported & He & _ & _ & ->)
                       |[(He & Hf & ms & u' & Hc & Hr & _)|(He & Hf & _ & ->)]].
    + rewrite He. cbn [notNil]. split; intros _; by left.
    + specialize (IHfields ms Hf Hc dm fieldPath u' c1 Hr).
      rewrite IHfields, IHrest, He. split.
      * intros [Hm|Hm]; [right; left|by right; right].
        split_and!; try done. by exists ms.
      * intros [?|[(_ & _ & ms' & Hc' & Hm)|Hm]]; [done| |by right].
        rewrite Hc in Hc'. injection Hc' as <-. by left.
    + rewrite IHrest, He, Hf. split.
      * intros [?|Hm]; [done|by right; right].
      * intros [?|[(_ & ? & _)|Hm]]; [done|done|by right].
Qed.

Lemma injectFieldsWithRoot_unmarked defs :
  ¬ marked defs →
  ∀ dm1 dm2 root1 root2,
    injectFieldsWithRoot dm1 root1 defs = injectFieldsWithRoot dm2 root2 defs.
Proof.
  induction defs as [|def rest IHfields IHrest] using field_tree_ind;
    intros Hun dm1 dm2 root1 root2.
  - by rewrite !injectFieldsWithRoot_nil.
  - rewrite marked_cons in Hun.
    rewrite !injectFieldsWithRoot_cons.
    rewrite (IHrest (λ H, Hun (or_intror (or_intror H))) dm1 dm2 root1 root2).
    assert (Hfield : injectField dm1 root1 def = injectField dm2 root2 def).
    { unfold injectField.
      destruct (buildFieldPath_cases def) as [[name Hname]|Hname];
        [|by rewrite !Hname].
      rewrite !(buildFieldPath_named _ _ name Hname). cbn zeta.
      destruct (notNil (GetValue def "external").1) eqn:He.
      { destruct Hun. by left. }
      destruct (notNil (GetValue def "fields").1) eqn:Hf; [|done].
      destruct (ToMapStrSlice (GetValue def "fields").1)
        as [ms [err|]] eqn:Hc; [done|].
      erewrite (IHfields ms eq_refl eq_refl _ dm1 dm2). reflexivity. }
    by rewrite Hfield.
    Unshelve.
    intros Hm. apply Hun. right; left. split_and!; try done. by exists ms.
Qed.

Lemma marked_nil_manager defs :
  marked defs → ∀ root, notOk (injectFieldsWithRoot None root defs).
Proof.
  induction 1 as [defs def Hin He|defs def ms Hin He Hf Hc _ IH]; intros root;
    apply (notOk_elem _ _ def); try done; unfold injectField.
  - destruct (buildFieldPath root def) as [|fieldPath]; [done|]. cbn zeta.
    rewrite He.
    by destruct (assertString (GetValue def "external").1).
  - destruct (buildFieldPath root def) as [|fieldPath]; [done|]. cbn zeta.
    rewrite He, Hf, Hc. specialize (IH fieldPath).
    by destruct (injectFieldsWithRoot None fieldPath ms) as [|[[u c] [err|]]].
Qed.

(** X4: the changed flag is exact.  When injection succeeds, it reports
    a change if and only if it reached an external marker: on a node of
    the tree, or in the nested fields of nodes without marker. *)
Theorem injectFieldsWithRoot_changed (dm : option DependencyManager)
    (root : string) (defs out : list MapStr) (changed : bool) :
  injectFieldsWithRoot dm root defs = Returned (out, changed, None) →
  changed = true ↔ marked defs.
Proof. apply injectFieldsWithRoot_changed_marked. Qed.

(** X5: a tree in which injection reaches no external marker is
    treated the same whatever the manager and whatever the root path:
    the schemas are not consulted, and the result (tree, flag, error or
    panic) does not depend on them. *)
Theorem injectFieldsWithRoot_without_markers (defs : list MapStr)
    (dm1 dm2 : option DependencyManager) (root1 root2 : string) :
  ¬ marked defs →
  injectFieldsWithRoot dm1 root1 defs = injectFieldsWithRoot dm2 root2 defs.
Proof. intros H. by apply injectFieldsWithRoot_unmarked. Qed.

(** X6: without a manifest (the nil manager) injection never resolves
    anything.  If it reaches an external marker it does not succeed;
    so when it succeeds it reports no change, and any manager gives the
    same result on that tree. *)
Theorem InjectFields_nil_manager (defs : list MapStr) :
  (marked defs → notOk (InjectFields None defs)) ∧
  (∀ out changed,
     InjectFields None defs = Returned (out, changed, None) →
     changed = false
     ∧ ∀ dm, InjectFields dm defs = Returned (out, false, None)).
Proof.
  split.
  - intros H. by apply marked_nil_manager.
  - intros out changed Hrun.
    assert (Hun : ¬ marked defs).
    { intros Hm. pose proof (marked_nil_manager _ Hm "") as Hno.
      unfold InjectFields in Hrun. by rewrite Hrun in Hno. }
    assert (changed = false) as ->.
    { destruct changed; [|done]. destruct Hun.
      by apply (injectFieldsWithRoot_changed_marked _ _ _ _ _ Hrun). }
    split; [done|]. intros dm. unfold InjectFields in *.
    by rewrite (injectFieldsWithRoot_unmarked defs Hun dm None "" "").
Qed.

(** ** Which nodes are dropped *)

Lemma isString_type (def : MapStr) (s : string) :
  isString (GetValue def "type").1 s = true ↔ def !! "type" = Some (VStr s).
Proof.
  unfold GetValue. destruct (def !! "type") as [t|]; cbn [fst isString].
  - destruct t; cbn [isString]; try (split; [discriminate|intros [=]]).
    rewrite bool_decide_eq_true. split; [by intros ->|by intros [= ->]].
  - split; [discriminate|intros [=]].
Qed.

Lemma skipField_Put_fields (def : MapStr) (updatedFields : list MapStr) :
  skipField (Put def "fields" (VMapStrs updatedFields)) = true ↔
  def !! "type" = Some (VStr "group") ∧ updatedFields = [].
Proof.
  rewrite <- isString_type. unfold skipField, Put, GetValue.
  rewrite lookup_insert_ne by done. rewrite lookup_insert_eq.
  destruct (def !! "type") as [t|]; cbn [fst];
    [|split; [discriminate|intros [[=] _]]].
  destruct (isString t "group"); [|split; [discriminate|intros [[=] _]]].
  rewrite bool_decide_eq_true. destruct updatedFields; split; try done.
  - intros [_ [=]].
Qed.

Lemma skipField_nil_fields (def : MapStr) :
  notNil (GetValue def "fields").1 = false →
  skipField def = true ↔ def !! "type" = Some (VStr "group").
Proof.
  intros Hf. rewrite <- isString_type. unfold skipField.
  destruct (GetValue def "type") as [t e]. cbn [fst].
  destruct (isString t "group"); [|done].
  destruct (GetValue def "fields") as [fields e']. cbn [fst] in Hf.
  by destruct fields.
Qed.

(** X7: which plain nodes are dropped.  A node without external marker
    that injection processes with success is left out of the output
    exactly when its type is "group" and either it has no fields (none,
    or nil) or the injection of its nested fields returns no node: the
    pruning goes up from the children to the parent. *)
Theorem injectFieldsWithRoot_drops_plain (dm : option DependencyManager)
    (root : string) (def : MapStr) (out : list MapStr) (changed : bool) :
  notNil (GetValue def "external").1 = false →
  injectFieldsWithRoot dm root [def] = Returned (out, changed, None) →
  out = [] ↔
  def !! "type" = Some (VStr "group")
  ∧ (notNil (GetValue def "fields").1 = false
     ∨ ∃ fieldPath fieldsMs fieldsChanged,
         buildFieldPath root def = Returned fieldPath
         ∧ ToMapStrSlice (GetValue def "fields").1 = (fieldsMs, None)
         ∧ injectFieldsWithRoot dm fieldPath fieldsMs
           = Returned ([], fieldsChanged, None)).
Proof.
  intros He Hrun.
  apply injectFieldsWithRoot_cons_Returned in Hrun
    as (def' & c1 & u & c2 & Hfield & Hrest & -> & ->).
  rewrite injectFieldsWithRoot_nil in Hrest. injection Hrest as <- <-.
  rewrite app_nil_r.
  assert (Hout : appendUnlessSkipped [] def' = [] ↔ skipField def' = true).
  { unfold appendUnlessSkipped. by destruct (skipField def'). }
  rewrite Hout.
  apply injectField_Returned in Hfield as (fieldPath & Hp & Hfield).
  destruct Hfield as [(s & imported & He' & _)
                     |[(_ & Hf & ms & u' & Hc & Hr & ->)|(_ & Hf & -> & _)]].
  - rewrite He' in He. discriminate He.
  - rewrite skipField_Put_fields, Hf. split.
    + intros [Ht ->]. split; [done|]. right. by exists fieldPath, ms, c1.
    + intros [Ht [?|(fieldPath' & ms' & c' & Hp' & Hc' & Hr')]]; [done|].
      rewrite Hp in Hp'. injection Hp' as <-.
      rewrite Hc in Hc'. injection Hc' as <-.
      rewrite Hr in Hr'. by injection Hr' as ->.
  - rewrite (skipField_nil_fields _ Hf), Hf. split; [|by intros [? _]].
    intros Ht. split; [done|by left].
Qed.




(** X9: the local attributes win over the imported ones, but for the
    type.  In a merged node the marker is gone; an attribute the local
    node does not have is the imported one; an attribute other than
    the type that the local node has (with a value that is not a map)
    has the local value; and the type is a string, whatever the local
    node declared. *)
Theorem mergeImportedField_overrides (imported : FieldDefinition)
    (def : MapStr) :
  mergeImportedField imported def !! "external" = None ∧
  (∀ k, k ≠ "type" → k ≠ "external" → def !! k = None →
     mergeImportedField imported def !! k
     = transformImportedField imported !! k) ∧
  (∀ k v, k ≠ "type" → k ≠ "external" → def !! k = Some v →
     (∀ d', v ≠ VMap d') →
     mergeImportedField imported def !! k = Some v) ∧
  (∃ t, mergeImportedField imported def !! "type" = Some (VStr t)).
Proof.
  split_and!.
  - apply mergeImportedField_external.
  - intros k Hk Hk' Hl. rewrite mergeImportedField_other by done.
    unfold Delete. rewrite lookup_delete_ne by done.
    by apply lookup_DeepUpdate_None.
  - intros k v Hk Hk' Hl Hv. by apply mergeImportedField_plain.
  - unfold mergeImportedField. cbn zeta.
    destruct (bool_decide _ || bool_decide _) eqn:Hc.
    + eexists. apply lookup_insert_eq.
    + apply orb_false_iff in Hc as [Hc _].
      apply bool_decide_eq_false in Hc. apply dec_stable in Hc.
      destruct (Delete _ _ !! "type") as [t|]; [|discriminate Hc].
      destruct t; try discriminate Hc. by eexists.
Qed.

(** ** The attribute map of an imported definition *)

Lemma lookup_if_insert_ne (c : bool) (k k' : string) (v : value) (m : MapStr) :
  k ≠ k' → (if c then <[k' := v]> m else m) !! k = m !! k.
Proof. intros H. destruct c; [by rewrite lookup_insert_ne|done]. Qed.

Lemma lookup_option_insert_ne {A} (o : option A) (f : A → value)
    (k k' : string) (m : MapStr) :
  k ≠ k' →
  match o with Some b => <[k' := f b]> m | None => m end !! k = m !! k.
Proof. intros H. destruct o; [by rewrite lookup_insert_ne|done]. Qed.

Ltac transform_peel :=
  unfold Put;
  repeat first
    [ rewrite lookup_if_insert_ne by done
    | rewrite lookup_option_insert_ne by done ].

Ltac transform_finish :=
  transform_peel;
  rewrite ?lookup_insert_eq;
  rewrite ?lookup_insert_ne by done;
  rewrite ?lookup_singleton_eq;
  rewrite ?lookup_singleton_ne by done;
  try done.

Lemma transformImportedField_unfold (fd : FieldDefinition) :
  transformImportedField fd =
  let m : MapStr := {[ "name" := VStr (Name fd); "type" := VStr (Type_ fd) ]} in
  let m := if bool_decide (Description fd ≠ "")
           then <["description" := VStr (Description fd)]> m else m in
  let m := if bool_decide (Pattern fd ≠ "")
           then <["pattern" := VStr (Pattern fd)]> m else m in
  let m := match Index fd with
           | Some b => <["index" := VBool b]> m
           | None => m
           end in
  let m := match DocValues fd with
           | Some b => <["doc_values" := VBool b]> m
           | None => m
           end in
  let m := if bool_decide (0 < length (Normalize fd))
           then <["normalize" := VStrs (Normalize fd)]> m else m in
  let m := if bool_decide (0 < length (MultiFields fd))
           then Put m "multi_fields"
                  (VMapStrs (List.map transformImportedField (MultiFields fd)))
           else m in
  m.
Proof. by destruct fd. Qed.

Lemma transformImportedField_lookups (fd : FieldDefinition) :
  transformImportedField fd !! "name" = Some (VStr (Name fd)) ∧
  transformImportedField fd !! "type" = Some (VStr (Type_ fd)) ∧
  transformImportedField fd !! "description"
  = (if bool_decide (Description fd = "") then None
     else Some (VStr (Description fd))) ∧
  transformImportedField fd !! "pattern"
  = (if bool_decide (Pattern fd = "") then None
     else Some (VStr (Pattern fd))) ∧
  transformImportedField fd !! "index" = VBool <$> Index fd ∧
  transformImportedField fd !! "doc_values" = VBool <$> DocValues fd ∧
  transformImportedField fd !! "normalize"
  = match Normalize fd with
    | [] => None
    | steps => Some (VStrs steps)
    end ∧
  transformImportedField fd !! "multi_fields"
  = match MultiFields fd with
    | [] => None
    | fields => Some (VMapStrs (transformImportedField <$> fields))
    end ∧
  (∀ k, k ∉ importedAttributes → transformImportedField fd !! k = None).
Proof.
  rewrite transformImportedField_unfold. cbn zeta.
  split_and!.
  - transform_finish.
  - transform_finish.
  - transform_peel. repeat case_bool_decide; try done; transform_finish.
  - transform_peel. repeat case_bool_decide; try done; transform_finish.
  - transform_peel. destruct (Index fd); cbn; transform_finish.
  - transform_peel. destruct (DocValues fd); cbn; transform_finish.
  - transform_peel. destruct (Normalize fd) as [|step steps]; cbn [length].
    + rewrite bool_decide_eq_false_2 by (cbn; lia). transform_finish.
    + rewrite bool_decide_eq_true_2 by (cbn; lia). apply lookup_insert_eq.
  - unfold Put. destruct (MultiFields fd) as [|f fs]; cbn [length].
    + rewrite bool_decide_eq_false_2 by (cbn; lia). transform_finish.
    + rewrite bool_decide_eq_true_2 by (cbn; lia). rewrite lookup_insert_eq.
      reflexivity.
  - intros k Hk. unfold importedAttributes in Hk.
    rewrite !not_elem_of_cons in Hk.
    destruct Hk as (? & ? & ? & ? & ? & ? & ? & ? & _).
    transform_finish.
Qed.

(** X10: what the attribute map of an imported definition holds.  The
    name and the type are always there; a description, a pattern, the
    normalization steps and the multi-fields are there exactly when
    they are not empty; [index] and [doc_values] are there exactly when
    the definition sets them, with the value it sets (true and false
    are both kept apart from unset); the multi-fields are transformed
    in the same way; and no other attribute is written, in particular
    no marker and no fields. *)
Theorem transformImportedField_attributes (fd : FieldDefinition) :
  transformImportedField fd !! "name" = Some (VStr (Name fd)) ∧
  transformImportedField fd !! "type" = Some (VStr (Type_ fd)) ∧
  transformImportedField fd !! "description"
  = (if bool_decide (Description fd = "") then None
     else Some (VStr (Description fd))) ∧
  transformImportedField fd !! "pattern"
  = (if bool_decide (Pattern fd = "") then None
     else Some (VStr (Pattern fd))) ∧
  transformImportedField fd !! "index" = VBool <$> Index fd ∧
  transformImportedField fd !! "doc_values" = VBool <$> DocValues fd ∧
  transformImportedField fd !! "normalize"
  = match Normalize fd with
    | [] => None
    | steps => Some (VStrs steps)
    end ∧
  transformImportedField fd !! "multi_fields"
  = match MultiFields fd with
    | [] => None
    | fields => Some (VMapStrs (transformImportedField <$> fields))
    end ∧
  (∀ k, k ∉ importedAttributes → transformImportedField fd !! k = None).
Proof. apply transformImportedField_lookups. Qed.


(** ** Git references *)

Lemma sliceFrom_app (prefix rest : string) :
  sliceFrom (String.length prefix) (prefix +:+ rest) = rest.
Proof. induction prefix as [|c prefix IH]; [done|exact IH]. Qed.

(** X11: [asGitReference] takes the prefix "git@" off and nothing
    else.  It returns a reference without an error exactly when the
    value is "git@" followed by that reference, and an error exactly
    when the value does not start with "git@"; the empty string and a
    bare "git@" show the two edges. *)
Theorem asGitReference_roundtrip (reference ref : string) :
  (asGitReference reference = (ref, None) ↔ reference = "git@" +:+ ref) ∧
  ((asGitReference reference).2 ≠ None ↔
   ∀ rest, reference ≠ "git@" +:+ rest) ∧
  (asGitReference "").2 ≠ None ∧
  asGitReference "git@" = ("", None).
Proof.
  split_and!.
  - split.
    + unfold asGitReference.
      destruct (strings.HasPrefix reference gitReferencePrefix) eqn:Hp;
        cbn [negb]; [|discriminate].
      apply HasPrefix_spec in Hp as [rest ->].
      rewrite (sliceFrom_app gitReferencePrefix rest). by intros [= ->].
    + intros ->. apply asGitReference_prefixed.
  - split.
    + intros Herr rest ->. by rewrite asGitReference_prefixed in Herr.
    + intros H. by rewrite (asGitReference_other _ H).
  - discriminate.
  - reflexivity.
Qed.

(** * Further properties of the schema loader *)

Lemma newEvents_same (w : World) : newEvents w w = [].
Proof. apply newEvents_app. by rewrite app_nil_r. Qed.

(** Every way through [readECSFieldsSchemaFile]: the goal is left once
    for each, with what was found on the way in the context. *)
Ltac load_split dep w :=
  unfold readECSFieldsSchemaFile;
  destruct (asGitReference (Reference dep)) as [? [?|]] eqn:Hreference;
    [|unfold bind, locations.NewLocationManager, os.ReadFile;
      destruct (fieldsCacheDir w) as [? [?|]] eqn:Hdir;
        [|cbn [emit files];
          destruct (files w !! _) as [[?|?]|] eqn:Hfile;
            [|match goal with
              | |- context [errors.Is ?e os.ErrNotExist] =>
                  destruct (errors.Is e os.ErrNotExist) eqn:Hmissing
              end
             |change (errors.Is (ErrorWrap os.ErrNotExist _) os.ErrNotExist)
                with true];
            cbn match;
            try (unfold http.Get; cbn [emit remote];
                 destruct (remote w _) as [? [?|]] eqn:Hremote;
                   [|unfold ret;
                     destruct (bool_decide (StatusCode _ = http.StatusNotFound))
                       eqn:Hnotfound;
                       [|destruct (bool_decide (StatusCode _ ≠ http.StatusOK))
                           eqn:Hnotok;
                           [|unfold io.ReadAll;
                             destruct (Body _) as [? [?|]] eqn:Hbody;
                               [|unfold os.MkdirAll; cbn [emit mkdirError];
                                 destruct (mkdirError w _) as [?|] eqn:Hmkdir;
                                   [|unfold os.WriteFile; cbn [emit writeError];
                                     destruct (writeError w _) as [?|]
                                       eqn:Hwrite]]]]])]];
  unfold ret.

Ltac count_events :=
  cbn [fst snd];
  first
    [ rewrite newEvents_same
    | erewrite newEvents_app
        by (cbn [trace emit]; rewrite <- ?app_assoc; reflexivity) ];
  cbn; lia.

Section LoaderProperties.

Variable filepath_Join : list string → string.
Variable filepath_Dir : string → string.

Ltac peel_events evs Hk tac :=
  destruct evs as [|? evs];
    [tac
    |cbn [app] in Hk; first [discriminate Hk|injection Hk as <- Hk]].

Lemma loadSequence_prefix (path url dir : string) (content : list Byte.byte)
    (evs : list Event) :
  evs `prefix_of` loadSequence path url dir content →
  (countEvents isCacheWrite evs ≤ countEvents isFetch evs
   ∧ countEvents isFetch evs ≤ countEvents isCacheRead evs
   ∧ countEvents isCacheRead evs ≤ 1)
  ∧ (∀ before ev after,
       evs = before ++ ev :: after → isFetch ev = true →
       countEvents isCacheRead before = 1 ∧ countEvents isFetch before = 0)
  ∧ (∀ before ev after,
       evs = before ++ ev :: after → isCacheWrite ev = true →
       countEvents isFetch before = 1
       ∧ countEvents isCacheWrite before = 0).
Proof.
  intros [k Hk]. unfold loadSequence in Hk. split_and!.
  - do 7 (peel_events evs Hk ltac:(cbn; lia)).
  - do 7 (peel_events evs Hk ltac:(cbn; lia)).
  - do 7 (peel_events evs Hk ltac:(cbn; lia)).
  - intros before ev after -> Hev. rewrite <- app_assoc in Hk.
    do 7 (peel_events before Hk
            ltac:(cbn [app] in Hk; first [discriminate Hk|injection Hk as <- Hk];
                  first [discriminate Hev|split; reflexivity])).
  - intros before ev after -> Hev. rewrite <- app_assoc in Hk.
    do 7 (peel_events before Hk
            ltac:(cbn [app] in Hk; first [discriminate Hk|injection Hk as <- Hk];
                  first [discriminate Hev|split; reflexivity])).
Qed.

(** X12: what the loader never does.  Whatever the reference and the
    surroundings, one loading of the schema file only adds events to
    the trace, and the events it adds are an initial part of the
    sequence: location manager, read of the cache, fetch, read of the
    body, making of the directory, write to the cache.  So it reads the
    cache at most once, fetches at most once and writes to the cache at
    most once; a fetch comes after the one read of the cache and after
    no other fetch; and a write to the cache comes after the one fetch
    and after no other write. *)
Theorem readECSFieldsSchemaFile_events (dep : ECSDependency) (w : World) :
  let w' := (readECSFieldsSchemaFile filepath_Join filepath_Dir dep w).2 in
  let evs := newEvents w w' in
  trace w' = trace w ++ evs
  ∧ (∃ path url dir content, evs `prefix_of` loadSequence path url dir content)
  ∧ (countEvents isCacheWrite evs ≤ countEvents isFetch evs
     ∧ countEvents isFetch evs ≤ countEvents isCacheRead evs
     ∧ countEvents isCacheRead evs ≤ 1)
  ∧ (∀ before ev after,
       evs = before ++ ev :: after → isFetch ev = true →
       countEvents isCacheRead before = 1 ∧ countEvents isFetch before = 0)
  ∧ (∀ before ev after,
       evs = before ++ ev :: after → isCacheWrite ev = true →
       countEvents isFetch before = 1
       ∧ countEvents isCacheWrite before = 0).
Proof.
  cbn zeta.
  set (w' := (readECSFieldsSchemaFile filepath_Join filepath_Dir dep w).2).
  assert (Hevs : ∃ evs, trace w' = trace w ++ evs
                        ∧ ∃ path url dir content,
                            evs `prefix_of` loadSequence path url dir content).
  { subst w'. load_split dep w.
    all: cbn [fst snd trace emit]; rewrite <- ?app_assoc; cbn [app].
    all: eexists; split;
      [first [reflexivity|symmetry; apply app_nil_r]|].
    all: unshelve (eexists _, _, _, _; eexists; cbn [loadSequence app];
                   reflexivity);
      first [exact EmptyString|exact (@nil Byte.byte)|exact (@nil Event)]. }
  destruct Hevs as (evs & Htrace & path & url & dir & content & Hprefix).
  rewrite (newEvents_app w w' evs Htrace).
  split; [exact Htrace|].
  split; [by exists path, url, dir, content|].
  exact (loadSequence_prefix path url dir content evs Hprefix).
Qed.

Lemma asGitReference_inv (reference ref : string) :
  asGitReference reference = (ref, None) → reference = "git@" +:+ ref.
Proof.
  unfold asGitReference.
  destruct (strings.HasPrefix reference gitReferencePrefix) eqn:Hp;
    cbn [negb]; [|discriminate].
  apply HasPrefix_spec in Hp as [rest ->].
  rewrite (sliceFrom_app gitReferencePrefix rest). by intros [= ->].
Qed.

(** X13: the loader and the content of the cache.  The cache changes
    only by a write of the loader; an error comes with no bytes; and
    when bytes are returned, the reference has the prefix, the cache
    directory is known, the cached file of that reference holds exactly
    the bytes returned, and every other file is as it was. *)
Theorem readECSFieldsSchemaFile_cache_content (dep : ECSDependency)
    (w : World) :
  let r := (readECSFieldsSchemaFile filepath_Join filepath_Dir dep w).1 in
  let w' := (readECSFieldsSchemaFile filepath_Join filepath_Dir dep w).2 in
  (countEvents isCacheWrite (newEvents w w') = 0 → files w' = files w) ∧
  (r.2 ≠ None → r.1 = []) ∧
  (∀ content, r = (content, None) →
     ∃ ref dir,
       Reference dep = "git@" +:+ ref
       ∧ fieldsCacheDir w = (dir, None)
       ∧ files w' !! filepath_Join [dir; ecsSchemaName; ref; ecsSchemaFile]
         = Some (inl content)
       ∧ ∀ p, p ≠ filepath_Join [dir; ecsSchemaName; ref; ecsSchemaFile] →
              files w' !! p = files w !! p).
Proof.
  cbn zeta. load_split dep w; cbn [fst snd].
  all: split_and!; [try done|try done|].
  all: try (intros Hcount; exfalso; revert Hcount; count_events).
  all: try (intros content0 [=]; fail).
  all: intros content0 [= <-]; apply asGitReference_inv in Hreference;
    eexists _, _; (split_and!; [exact Hreference|reflexivity| |]).
  all: cbn [files emit]; try done.
  all: try apply lookup_insert_eq.
  all: intros p Hp; by rewrite lookup_insert_ne.
Qed.

(** X14: failures before the fetch.  When the location manager fails,
    the loader returns its error without looking at the cache or the
    network.  When the cached file is there but cannot be read, the
    loader returns the read error: it does not fall back to a fetch,
    and writes nothing. *)
Theorem readECSFieldsSchemaFile_no_fallback (ref : string) (w : World) :
  let dep := mkECSDependency ("git@" +:+ ref) in
  let load := readECSFieldsSchemaFile filepath_Join filepath_Dir in
  (∀ dir err, fieldsCacheDir w = (dir, Some err) →
     load dep w
     = (([], Some (ErrorWrap err "error fetching profile path")),
        emit EvNewLocationManager w)) ∧
  (∀ dir err,
     let path := filepath_Join [dir; ecsSchemaName; ref; ecsSchemaFile] in
     fieldsCacheDir w = (dir, None) →
     files w !! path = Some (inr err) →
     errors.Is err os.ErrNotExist = false →
     load dep w
     = (([], Some (ErrorWrap err
                     ("can't read cached schema (path: " +:+ path +:+ ")"))),
        emit (EvReadFile path) (emit EvNewLocationManager w))
     ∧ countEvents isFetch (newEvents w (load dep w).2) = 0
     ∧ countEvents isCacheWrite (newEvents w (load dep w).2) = 0).
Proof.
  cbn zeta. split.
  - intros dir err Hdir. unfold readECSFieldsSchemaFile.
    cbn [Reference]. rewrite asGitReference_prefixed.
    unfold bind, locations.NewLocationManager. by rewrite Hdir.
  - intros dir err Hdir Hfile Hmissing.
    assert (Hload :
      readECSFieldsSchemaFile filepath_Join filepath_Dir
        (mkECSDependency ("git@" +:+ ref)) w
      = (([], Some (ErrorWrap err
            ("can't read cached schema (path: "
             +:+ filepath_Join [dir; ecsSchemaName; ref; ecsSchemaFile]
             +:+ ")"))),
         emit (EvReadFile (filepath_Join [dir; ecsSchemaName; ref; ecsSchemaFile]))
           (emit EvNewLocationManager w))).
    { unfold readECSFieldsSchemaFile.
      cbn [Reference]. rewrite asGitReference_prefixed.
      unfold bind, locations.NewLocationManager, os.ReadFile.
      rewrite Hdir. cbn [emit files]. rewrite Hfile. cbn match.
      by rewrite Hmissing. }
    rewrite Hload. split_and!; [done|count_events..].
Qed.

(** X15: when a miss succeeds.  With the cache directory at hand and
    no cached file, the loading succeeds exactly when the fetch
    succeeded (status 200, body read), the cache directory could be
    made and the file could be written: a failed write of the cache
    fails the loading, though the schema was fetched.  The bytes
    returned are then the body of the answer. *)
Theorem readECSFieldsSchemaFile_miss_success (ref dir : string) (w : World) :
  let dep := mkECSDependency ("git@" +:+ ref) in
  let path := filepath_Join [dir; ecsSchemaName; ref; ecsSchemaFile] in
  let url := ecsSchemaURL ref ecsSchemaFile in
  let load := readECSFieldsSchemaFile filepath_Join filepath_Dir in
  fieldsCacheDir w = (dir, None) →
  files w !! path = None →
  ((load dep w).1.2 = None ↔
   fetchedForCache w url (filepath_Dir path) ∧ writeError w path = None) ∧
  (∀ content, (load dep w).1 = (content, None) →
     (remote w url).1.(Body) = (content, None)).
Proof.
  intros dep path url load Hdir Hfile.
  pose proof (load_miss filepath_Join filepath_Dir ref dir w Hdir Hfile)
    as Hmiss.
  cbn zeta in Hmiss. fold path url dep load in Hmiss. rewrite Hmiss.
  unfold fetchedForCache.
  destruct (remote w url) as [resp [err|]] eqn:Hremote.
  { split; [|intros content [=]]. split; [intros [=]|].
    intros [(resp' & content & [=] & _) _]. }
  case_bool_decide as Hnf.
  { split; [|intros content [=]]. split; [intros [=]|].
    intros [(resp' & content & [= <-] & Hok & _) _].
    rewrite Hnf in Hok. discriminate Hok. }
  case_bool_decide as Hok.
  { split; [|intros content [=]]. split; [intros [=]|].
    intros [(resp' & content & [= <-] & Hok' & _) _]. done. }
  destruct (Body resp) as [content [err|]] eqn:Hbody.
  { split; [|intros content' [=]]. split; [intros [=]|].
    intros [(resp' & content' & [= <-] & _ & Hb & _) _].
    rewrite Hbody in Hb. discriminate Hb. }
  destruct (mkdirError w (filepath_Dir path)) as [err|] eqn:Hmk.
  { split; [|intros content' [=]]. split; [intros [=]|].
    intros [(resp' & content' & _ & _ & _ & [=]) _]. }
  destruct (writeError w path) as [err|] eqn:Hwrite.
  { split; [|intros content' [=]]. split; [intros [=]|].
    intros [_ [=]]. }
  cbn [fst snd]. split.
  - split; [|done]. intros _. split; [|done]. by exists resp, content.
  - intros content' [= <-]. by rewrite Hbody.
Qed.

End LoaderProperties.

(** * Further properties of the creation of the manager *)

Section ManagerProperties.

Variable filepath_Join : list string → string.
Variable filepath_Dir : string → string.
Variable yaml_Unmarshal : list Byte.byte → list FieldDefinition * option error.

(** X16: what [CreateFieldDependencyManager] returns.  It returns a
    manager or an error, never both and never neither.  The schema map
    of a manager it returns has the key "ecs" and no other, so an
    import from any other schema fails with the error that the schema
    is no dependency, whatever the path. *)
Theorem CreateFieldDependencyManager_result (deps : Dependencies) (w : World) :
  let r :=
    (CreateFieldDependencyManager filepath_Join filepath_Dir yaml_Unmarshal
       deps w).1 in
  (r.1 = None ↔ r.2 ≠ None) ∧
  (∀ dm, r.1 = Some dm →
     (∀ name, is_Some (schema dm !! name) ↔ name = "ecs")
     ∧ ∀ name fieldPath, name ≠ "ecs" →
         ImportField (Some dm) name fieldPath
         = (zeroFieldDefinition, Some (schemaNotDefined name))).
Proof.
  cbn zeta. unfold CreateFieldDependencyManager, buildFieldsSchema, bind.
  destruct (loadECSFieldsSchema _ _ _ _ w) as [[fields [err|]] w'];
    cbn [fst snd ret].
  - split; [done|]. intros dm [=].
  - split; [split; [discriminate|done]|].
    intros dm [= <-]. cbn [schema]. split.
    + intros name. unfold ecsSchemaName. split.
      * intros [x Hx]. apply lookup_insert_Some in Hx as [[<- _]|[_ Hx]];
          [done|]. by rewrite lookup_empty in Hx.
      * intros ->. rewrite lookup_insert_eq. by eexists.
    + intros name fieldPath Hname. unfold ImportField. cbn [schema].
      unfold ecsSchemaName. rewrite lookup_insert_ne by done.
      by rewrite lookup_empty.
Qed.

(** X17: how the creation of the manager is made of the loading and the
    decoding.  With a reference that is not empty, the surroundings are
    left as the loading of the schema file leaves them; an error of the
    loader, or of the decoder on the bytes loaded, gives no manager and
    that error under three messages; and otherwise the schema "ecs" of
    the manager is what the decoder gives for the bytes loaded.  The
    decoder is not run when the loading fails. *)
Theorem CreateFieldDependencyManager_compose (deps : Dependencies) (w : World) :
  Reference (ECS deps) ≠ "" →
  CreateFieldDependencyManager filepath_Join filepath_Dir yaml_Unmarshal deps w
  = match readECSFieldsSchemaFile filepath_Join filepath_Dir (ECS deps) w with
    | ((_, Some err), w') =>
        ((None,
          Some (ErrorWrap
                  (ErrorWrap
                     (ErrorWrap err "error reading ECS fields schema file")
                     "can't load fields")
                  "can't build fields schema")), w')
    | ((content, None), w') =>
        match yaml_Unmarshal content with
        | (_, Some err) =>
            ((None,
              Some (ErrorWrap
                      (ErrorWrap
                         (ErrorWrap err "unmarshalling field body failed")
                         "can't load fields")
                      "can't build fields schema")), w')
        | (fields, None) =>
            ((Some (mkDependencyManager {[ "ecs" := fields ]}), None), w')
        end
    end
  ∧ ∀ err,
      Error (ErrorWrap
               (ErrorWrap
                  (ErrorWrap err "error reading ECS fields schema file")
                  "can't load fields")
               "can't build fields schema")
      = "can't build fields schema: can't load fields: error reading ECS fields schema file: "
        +:+ Error err.
Proof.
  intros Hne. split; [|reflexivity].
  unfold CreateFieldDependencyManager, buildFieldsSchema, loadECSFieldsSchema,
    bind.
  rewrite bool_decide_eq_false_2 by done.
  destruct (readECSFieldsSchemaFile _ _ _ w) as [[content [err|]] w'];
    [reflexivity|].
  unfold ret, parseECSFieldsSchema.
  destruct (yaml_Unmarshal content) as [fields [err|]]; reflexivity.
Qed.

End ManagerProperties.

(** * Further properties of paths and errors *)

Lemma string_append_assoc (s1 s2 s3 : string) :
  (s1 +:+ s2) +:+ s3 = s1 +:+ s2 +:+ s3.
Proof.
  induction s1 as [|c s1 IH]; [done|].
  change (String c ((s1 +:+ s2) +:+ s3) = String c (s1 +:+ s2 +:+ s3)).
  by rewrite IH.
Qed.

(** X18: field paths are the names joined by dots.  The path of a named
    node is its name under the empty root and the root, a dot and the
    name otherwise; the path of a child is built on the path of its
    parent in that way.  A parent with the empty name under the empty
    root has the empty path, and its children are then named as if they
    were at the top: no dot is put in front. *)
Theorem buildFieldPath_of_child (root : string) (def child : MapStr)
    (name childName : string) :
  def !! "name" = Some (VStr name) →
  child !! "name" = Some (VStr childName) →
  ∃ path,
    buildFieldPath root def = Returned path
    ∧ path = (if bool_decide (root = "") then name
              else root +:+ "." +:+ name)
    ∧ buildFieldPath path child
      = Returned (if bool_decide (root = "" ∧ name = "") then childName
                  else path +:+ "." +:+ childName).
Proof.
  intros Hname Hchild. eexists. split; [by apply buildFieldPath_named|].
  rewrite (buildFieldPath_named _ _ _ Hchild).
  destruct (decide (root = "")) as [->|Hroot].
  - rewrite (bool_decide_eq_false_2 ("" ≠ "")) by (by intros H; apply H).
    rewrite (bool_decide_eq_true_2 ("" = "")) by done.
    split; [done|]. change ("" +:+ name) with name.
    destruct (decide (name = "")) as [->|Hn].
    + rewrite (bool_decide_eq_false_2 ("" ≠ "")) by (by intros H; apply H).
      by rewrite bool_decide_eq_true_2.
    + rewrite (bool_decide_eq_true_2 (name ≠ "")) by done.
      rewrite bool_decide_eq_false_2 by (by intros [_ ?]).
      by rewrite string_append_assoc.
  - rewrite (bool_decide_eq_true_2 (root ≠ "")) by done.
    rewrite (bool_decide_eq_false_2 (root = "")) by done.
    split; [by rewrite string_append_assoc|].
    rewrite bool_decide_eq_true_2 by (destruct root; [done|discriminate]).
    rewrite bool_decide_eq_false_2 by (by intros [? _]).
    by rewrite (string_append_assoc ((root +:+ ".") +:+ name)).
Qed.





(** * The further properties on examples *)

Lemma InjectFields_plainTree_run :
  injectFieldsWithRoot None "" plainTree
  = Returned (plainTreeInjected, false, None).
Proof. vm_compute. reflexivity. Qed.

Lemma plainTree_unmarked : ¬ marked plainTree.
Proof.
  unfold plainTree. rewrite !marked_cons.
  intros [H|[(_ & _ & ms & Hc & Hm)|[H|[(_ & Hf & _)|H]]]].
  - vm_compute in H. discriminate H.
  - vm_compute in Hc. injection Hc as <-.
    rewrite marked_cons in Hm.
    destruct Hm as [H|[(_ & Hf & _)|H]].
    + vm_compute in H. discriminate H.
    + vm_compute in Hf. discriminate Hf.
    + by apply marked_nil in H.
  - vm_compute in H. discriminate H.
  - vm_compute in Hf. discriminate Hf.
  - by apply marked_nil in H.
Defined.

Lemma scenarioTree_marked : marked scenarioTree.
Proof.
  apply (marked_here _ eventNode); [left|]. vm_compute. reflexivity.
Defined.

Lemma injectFieldsWithRoot_names_witness :
  sublist ((λ def : MapStr, def !! "name") <$> plainTreeInjected)
          ((λ def : MapStr, def !! "name") <$> plainTree)
  ∧ length plainTreeInjected ≤ length plainTree.
Proof.
  apply (injectFieldsWithRoot_names None "" plainTree plainTreeInjected false).
  vm_compute. reflexivity.
Defined.

Lemma injectFieldsWithRoot_output_witness :
  Forall (λ def, skipField def = false
                 ∧ notNil (GetValue def "external").1 = false)
    plainTreeInjected.
Proof.
  apply (injectFieldsWithRoot_output None "" plainTree plainTreeInjected false).
  vm_compute. reflexivity.
Defined.

Lemma injectFieldsWithRoot_changed_witness :
  (false = true ↔ marked plainTree).
Proof.
  apply (injectFieldsWithRoot_changed None "" plainTree plainTreeInjected false).
  vm_compute. reflexivity.
Defined.

Lemma injectFieldsWithRoot_without_markers_witness :
  injectFieldsWithRoot None "" plainTree
  = injectFieldsWithRoot scenarioManager "event" plainTree.
Proof.
  apply (injectFieldsWithRoot_without_markers plainTree None scenarioManager
           "" "event").
  exact plainTree_unmarked.
Defined.

Lemma InjectFields_nil_manager_witness :
  notOk (InjectFields None scenarioTree)
  ∧ (false = false
     ∧ ∀ dm, InjectFields dm plainTree
             = Returned (plainTreeInjected, false, None)).
Proof.
  split.
  - apply (proj1 (InjectFields_nil_manager scenarioTree)).
    exact scenarioTree_marked.
  - apply (proj2 (InjectFields_nil_manager plainTree) plainTreeInjected false).
    vm_compute. reflexivity.
Defined.

Lemma injectFieldsWithRoot_drops_plain_witness :
  @nil MapStr = [] ↔
  emptyGroup !! "type" = Some (VStr "group")
  ∧ (notNil (GetValue emptyGroup "fields").1 = false
     ∨ ∃ fieldPath fieldsMs fieldsChanged,
         buildFieldPath "" emptyGroup = Returned fieldPath
         ∧ ToMapStrSlice (GetValue emptyGroup "fields").1 = (fieldsMs, None)
         ∧ injectFieldsWithRoot None fieldPath fieldsMs
           = Returned ([], fieldsChanged, None)).
Proof.
  apply (injectFieldsWithRoot_drops_plain None "" emptyGroup [] false).
  - vm_compute. reflexivity.
  - vm_compute. reflexivity.
Defined.


Lemma mergeImportedField_overrides_witness :
  mergeImportedField eventGroup eventNode !! "description"
  = transformImportedField eventGroup !! "description"
  ∧ mergeImportedField eventGroup eventNode !! "name" = Some (VStr "event").
Proof.
  split.
  - apply (proj1 (proj2 (mergeImportedField_overrides eventGroup eventNode))).
    + discriminate.
    + discriminate.
    + vm_compute. reflexivity.
  - apply (proj1 (proj2 (proj2
             (mergeImportedField_overrides eventGroup eventNode)))).
    + discriminate.
    + discriminate.
    + vm_compute. reflexivity.
    + discriminate.
Defined.

Lemma transformImportedField_attributes_witness :
  transformImportedField outcomeKeyword !! "external" = None.
Proof.
  apply (proj2 (proj2 (proj2 (proj2 (proj2 (proj2 (proj2 (proj2
           (transformImportedField_attributes outcomeKeyword))))))))).
  unfold importedAttributes. rewrite !not_elem_of_cons.
  split_and!; try discriminate. apply not_elem_of_nil.
Defined.

Lemma asGitReference_roundtrip_witness :
  asGitReference "git@v8.0.0" = ("v8.0.0", None)
  ∧ (asGitReference "v8.0.0").2 ≠ None.
Proof.
  split.
  - apply (proj1 (asGitReference_roundtrip "git@v8.0.0" "v8.0.0")).
    reflexivity.
  - apply (proj1 (proj2 (asGitReference_roundtrip "v8.0.0" ""))).
    intros rest H. discriminate H.
Defined.

Lemma readECSFieldsSchemaFile_cache_content_witness :
  ∃ ref dir,
    Reference v8 = "git@" +:+ ref
    ∧ fieldsCacheDir (answering 200 [Byte.x61]) = (dir, None)
    ∧ files (readECSFieldsSchemaFile joinPath dirOf v8
               (answering 200 [Byte.x61])).2
        !! joinPath [dir; ecsSchemaName; ref; ecsSchemaFile]
      = Some (inl [Byte.x61])
    ∧ ∀ p, p ≠ joinPath [dir; ecsSchemaName; ref; ecsSchemaFile] →
           files (readECSFieldsSchemaFile joinPath dirOf v8
                    (answering 200 [Byte.x61])).2 !! p
           = files (answering 200 [Byte.x61]) !! p.
Proof.
  apply (proj2 (proj2 (readECSFieldsSchemaFile_cache_content joinPath dirOf
                         v8 (answering 200 [Byte.x61])))).
  vm_compute. reflexivity.
Defined.

Lemma readECSFieldsSchemaFile_no_fallback_witness :
  readECSFieldsSchemaFile joinPath dirOf v8 homelessWorld
  = (([], Some (ErrorWrap (ErrorNew "reading home dir failed")
                  "error fetching profile path")),
     emit EvNewLocationManager homelessWorld)
  ∧ (readECSFieldsSchemaFile joinPath dirOf v8 unreadableWorld
     = (([], Some (ErrorWrap permissionDenied
                     ("can't read cached schema (path: " +:+ v8Path +:+ ")"))),
        emit (EvReadFile v8Path) (emit EvNewLocationManager unreadableWorld))
     ∧ countEvents isFetch
         (newEvents unreadableWorld
            (readECSFieldsSchemaFile joinPath dirOf v8 unreadableWorld).2) = 0
     ∧ countEvents isCacheWrite
         (newEvents unreadableWorld
            (readECSFieldsSchemaFile joinPath dirOf v8 unreadableWorld).2) = 0).
Proof.
  split.
  - apply (proj1 (readECSFieldsSchemaFile_no_fallback joinPath dirOf
                    "v8.0.0" homelessWorld) "").
    reflexivity.
  - apply (proj2 (readECSFieldsSchemaFile_no_fallback joinPath dirOf
                    "v8.0.0" unreadableWorld) "/cache/fields").
    + reflexivity.
    + vm_compute. reflexivity.
    + reflexivity.
Defined.

Lemma readECSFieldsSchemaFile_miss_success_witness :
  ((readECSFieldsSchemaFile joinPath dirOf v8 readOnlyWorld).1.2 = None ↔
   fetchedForCache readOnlyWorld v8URL (dirOf v8Path)
   ∧ writeError readOnlyWorld v8Path = None)
  ∧ ∀ content,
      (readECSFieldsSchemaFile joinPath dirOf v8 readOnlyWorld).1
      = (content, None) →
      (remote readOnlyWorld v8URL).1.(Body) = (content, None).
Proof.
  apply (readECSFieldsSchemaFile_miss_success joinPath dirOf "v8.0.0"
           "/cache/fields" readOnlyWorld).
  - reflexivity.
  - vm_compute. reflexivity.
Defined.

Lemma CreateFieldDependencyManager_result_witness :
  (CreateFieldDependencyManager joinPath dirOf noDefinitions
     (mkDependencies v8) (cachedWorld [])).1.1
  = Some (mkDependencyManager {[ "ecs" := [] ]})
  ∧ ImportField (Some (mkDependencyManager {[ "ecs" := [] ]})) "beats"
      "event.outcome"
    = (zeroFieldDefinition, Some (schemaNotDefined "beats")).
Proof.
  assert (Hdm : (CreateFieldDependencyManager joinPath dirOf noDefinitions
                   (mkDependencies v8) (cachedWorld [])).1.1
                = Some (mkDependencyManager {[ "ecs" := [] ]})).
  { vm_compute. reflexivity. }
  split; [exact Hdm|].
  apply (proj2 (proj2 (CreateFieldDependencyManager_result joinPath dirOf
                         noDefinitions (mkDependencies v8) (cachedWorld []))
                  _ Hdm)).
  discriminate.
Defined.

Lemma CreateFieldDependencyManager_compose_witness :
  CreateFieldDependencyManager joinPath dirOf noDefinitions
    (mkDependencies v8) (cachedWorld [])
  = ((Some (mkDependencyManager {[ "ecs" := [] ]}), None),
     emit (EvReadFile v8Path) (emit EvNewLocationManager (cachedWorld []))).
Proof.
  rewrite (proj1 (CreateFieldDependencyManager_compose joinPath dirOf
                    noDefinitions (mkDependencies v8) (cachedWorld [])
                    ltac:(discriminate))).
  vm_compute. reflexivity.
Defined.

Lemma buildFieldPath_of_child_witness :
  ∃ path,
    buildFieldPath "" eventNode = Returned path
    ∧ path = "event"
    ∧ buildFieldPath path outcomeChild = Returned (path +:+ "." +:+ "outcome").
Proof.
  apply (buildFieldPath_of_child "" eventNode outcomeChild "event" "outcome").
  - vm_compute. reflexivity.
  - vm_compute. reflexivity.
Defined.

